(** * Route precomputation pipeline ([precompute_routes.py])

    A shallow embedding of the retry/backoff fetch client, the per-trip
    timestamp interpolation, the chunked driver with checkpoint/resume and
    the semaphore that bounds the in-flight fetches, followed by the
    properties established about them.

    Conventions of the embedding.
    - Python [int] is [Z] or [nat] (unbounded, no wrap-around); Python
      [float] and pandas timestamps are idealised as exact rationals [Q]
      (seconds), so binary rounding is not modelled, and a JSON number is
      taken to lie in the range of a [float] (beyond it the conversion of an
      [int] raises OverflowError in Python, which [/] and the [f] format
      code would meet).  Properties that depend on the exact value of a
      quotient or a product of floats are therefore not stated.
    - A value obtained from [response.json()] is a [json] tree; subscripting,
      truthiness, [len] and comparison follow Python on such values and
      return [None]/[Raise] where Python raises.
    - The network is an oracle: the outcome of the request issued at retry
      number [k] for a given trip.
    - Files are a finite map from path to content, and every effect that a
      property counts (requests, sleeps, writes, removals) is logged.
    - [print] calls are not modelled. *)

From Stdlib Require Import QArith Qround Lqa.
From stdpp Require Import gmap strings list fin_maps.
From Equations Require Import Equations.

Local Open Scope string_scope.
Local Open Scope list_scope.
Local Open Scope Z_scope.

#[local] Set Warnings "-register-all".

(** ** Module constants *)

Record Config := {
  MAX_RETRIES : nat;
  INITIAL_WAIT : Z;          (* seconds *)
  MAX_WAIT : Z;              (* seconds *)
  CONCURRENT_REQUESTS : nat;
  CHUNK_SIZE : nat
}.

(** The values the module assigns. *)
Definition default_config : Config :=
  {| MAX_RETRIES := 5; INITIAL_WAIT := 1; MAX_WAIT := 120;
     CONCURRENT_REQUESTS := 10; CHUNK_SIZE := 1000 |}.

(** ** Exceptions and results *)

Inductive exn :=
| TypeError | KeyError | IndexError | ValueError | ZeroDivisionError
| FileNotFoundError | OverflowError.

Inductive result (A : Type) :=
| Ok (a : A)
| Raise (e : exn).
Arguments Ok {A} a.
Arguments Raise {A} e.

Definition rbind {A B} (r : result A) (k : A -> result B) : result B :=
  match r with Ok a => k a | Raise e => Raise e end.

(** ** Parsed JSON and the Python operations applied to it *)

Inductive json :=
| JNull
| JBool (b : bool)
| JNum (q : Q)
| JStr (s : string)
| JArr (l : list json)
| JObj (kv : list (string * json)).

Fixpoint assoc (k : string) (kv : list (string * json)) : option json :=
  match kv with
  | [] => None
  | (k', v) :: rest => if String.eqb k k' then Some v else assoc k rest
  end.

(** [d[k]] for a [str] key: only a dict accepts it, and it must hold [k]. *)
Definition getitem (d : json) (k : string) : result json :=
  match d with
  | JObj kv => match assoc k kv with Some v => Ok v | None => Raise KeyError end
  | _ => Raise TypeError
  end.

(** [d[0]]: first element of a list, first character of a string; a dict
    parsed from JSON has no integer key. *)
Definition getitem0 (d : json) : result json :=
  match d with
  | JArr (x :: _) => Ok x
  | JArr [] => Raise IndexError
  | JStr (String c _) => Ok (JStr (String c EmptyString))
  | JStr EmptyString => Raise IndexError
  | JObj _ => Raise KeyError
  | _ => Raise TypeError
  end.

(** Truth value of an object in a condition. *)
Definition truthy (d : json) : bool :=
  match d with
  | JNull => false
  | JBool b => b
  | JNum q => negb (Qeq_bool q 0)
  | JStr s => negb (String.eqb s EmptyString)
  | JArr l => match l with [] => false | _ => true end
  | JObj kv => match kv with [] => false | _ => true end
  end.

(** [d == s] for a [str] literal [s]. *)
Definition eq_str (d : json) (s : string) : bool :=
  match d with JStr s' => String.eqb s' s | _ => false end.

(** Numeric view used by [>], [/] and the [f] format code ([bool] is an
    [int] in Python). *)
Definition as_num (d : json) : result Q :=
  match d with
  | JNum q => Ok q
  | JBool b => Ok (if b then 1%Q else 0%Q)
  | JStr _ => Raise ValueError
  | _ => Raise TypeError
  end.

(** Operand of an arithmetic operator or an ordering: every non-number is a
    [TypeError]. *)
Definition operand (d : json) : result Q :=
  match d with
  | JNum q => Ok q
  | JBool b => Ok (if b then 1%Q else 0%Q)
  | _ => Raise TypeError
  end.

(** [len(d)]. *)
Definition len (d : json) : result nat :=
  match d with
  | JArr l => Ok (length l)
  | JStr s => Ok (String.length s)
  | JObj kv => Ok (length kv)
  | _ => Raise TypeError
  end.

(** ** Route Fetch Client *)

(** What one [session.get] attempt can come to. *)
Inductive outcome :=
| TimedOut                                   (* asyncio.TimeoutError *)
| TransportError                             (* any other exception *)
| Response (status : Z) (body : option json) (* [None]: [response.json()] raises *).

(** The dict returned on the two paths that build one. *)
Record route_dict := {
  rd_coordinates : json;
  rd_duration : json;
  rd_distance : json;
  rd_average_speed : Q
}.

(** The three shapes [get_osrm_route] returns. *)
Inductive route_data :=
| PyNone
| PyDict (d : route_dict)
| PyList (l : json).

Inductive fetch_event :=
| Get (start_lng start_lat end_lng end_lat : Q) (retry_count : nat)
| Sleep (seconds : Z).

(** [[start_lng, start_lat], [end_lng, end_lat]] *)
Definition direct_line (start_lng start_lat end_lng end_lat : Q) : json :=
  JArr [JArr [JNum start_lng; JNum start_lat]; JArr [JNum end_lng; JNum end_lat]].

Definition degenerate (start_lng start_lat end_lng end_lat : Q) : route_dict :=
  {| rd_coordinates := direct_line start_lng start_lat end_lng end_lat;
     rd_duration := JNum 0; rd_distance := JNum 0; rd_average_speed := 0 |}.

(** Lines 35-51: everything between [await response.json()] and the
    [return] of a dict, with the exceptions it can raise. *)
Definition interpret (data : json) (start_lng start_lat end_lng end_lat : Q)
  : result route_dict :=
  let usable :=
    rbind (getitem data "code") (fun code =>
    if eq_str code "Ok" then
      rbind (getitem data "routes") (fun routes =>
      if truthy routes then
        rbind (getitem0 routes) (fun r0 =>
        rbind (getitem r0 "geometry") (fun g =>
        rbind (getitem g "coordinates") (fun cs => Ok (truthy cs))))
      else Ok false)
    else Ok false) in
  rbind usable (fun u =>
  if u then
    rbind (getitem data "routes") (fun routes =>
    rbind (getitem0 routes) (fun route =>
    rbind (getitem route "geometry") (fun g =>
    rbind (getitem g "coordinates") (fun cs =>
    rbind (getitem route "duration") (fun dur =>
    rbind (getitem route "distance") (fun dist =>
    rbind (getitem route "duration") (fun dur' =>
    rbind (operand dur') (fun d =>
    if Qlt_le_dec 0 d then
      rbind (getitem route "distance") (fun dist' =>
      rbind (operand dist') (fun x =>
      rbind (getitem route "duration") (fun dur'' =>
      rbind (operand dur'') (fun d' =>
      Ok {| rd_coordinates := cs; rd_duration := dur; rd_distance := dist;
            rd_average_speed := (x / d')%Q |}))))
    else
      Ok {| rd_coordinates := cs; rd_duration := dur; rd_distance := dist;
            rd_average_speed := 0 |}))))))))
  else Ok (degenerate start_lng start_lat end_lng end_lat)).

Section FetchClient.
Context (cfg : Config).

(** Line 23. *)
Definition wait_time (retry_count : nat) : Z :=
  Z.min (INITIAL_WAIT cfg * 2 ^ Z.of_nat retry_count) (MAX_WAIT cfg).

(** [session k] is what the request issued at retry number [k] comes to. *)
Equations? get_osrm_route (session : nat -> outcome)
    (start_lng start_lat end_lng end_lat : Q) (retry_count : nat)
  : route_data * list fetch_event
  by wf (MAX_RETRIES cfg - retry_count)%nat lt :=
get_osrm_route session start_lng start_lat end_lng end_lat retry_count :=
  let wait_time := wait_time retry_count in
  let request := Get start_lng start_lat end_lng end_lat retry_count in
  let retry (otherwise : route_data) :=
    match lt_dec retry_count (MAX_RETRIES cfg) with
    | left _ =>
        let '(r, evs) :=
          get_osrm_route session start_lng start_lat end_lng end_lat
            (S retry_count) in
        (r, request :: Sleep wait_time :: evs)
    | right _ => (otherwise, [request])
    end in
  match session retry_count with
  | Response status body =>
      if status =? 429 then retry PyNone
      else
        match body with
        | Some data =>
            match interpret data start_lng start_lat end_lng end_lat with
            | Ok d => (PyDict d, [request])
            | Raise _ =>
                retry (PyList (direct_line start_lng start_lat end_lng end_lat))
            end
        | None =>
            retry (PyList (direct_line start_lng start_lat end_lng end_lat))
        end
  | TimedOut =>
      retry (PyList (direct_line start_lng start_lat end_lng end_lat))
  | TransportError =>
      retry (PyList (direct_line start_lng start_lat end_lng end_lat))
  end.
Proof. all: lia. Qed.

End FetchClient.

(** ** Trips and Features *)

(** One row of the trip table, as loaded: a missing (NaN) cell is [None],
    the two time columns are what [pd.to_datetime] makes of them. *)
Record Trip := {
  trip_ID : string;
  pickup_location_latitude : option Q;
  pickup_location_longitude : option Q;
  dropoff_location_latitude : option Q;
  dropoff_location_longitude : option Q;
  start_time_local : Q;
  end_time_local : Q
}.

(** The values the popup f-string renders, in the order it renders them; the
    text itself is not modelled. *)
Record Popup := {
  popup_trip : string;
  popup_start : Q;
  popup_end : Q;
  popup_distance : Q;
  popup_duration : Q;
  popup_average_speed : Q
}.

Record Properties := {
  tripId : string;
  times : list Z;
  duration : json;
  distance : json;
  average_speed : Q;
  popup : Popup
}.

Record Geometry := {
  geometry_type : string;
  coordinates : json
}.

Record Feature := {
  feature_type : string;
  properties : Properties;
  geometry : Geometry
}.

(** ** Files, effects and the driver's monad *)

(** Content of the checkpoint and of the output file.  A file read back may
    lack the ["features"] key ([existing_data.get("features", [])]). *)
Record FeatureCollection := {
  collection_type : string;
  features : option (list Feature)
}.

Definition partial_path : string := "precomputed_routes_partial.json".
Definition final_path : string := "precomputed_routes.json".

Inductive event :=
| Fetching (trip : string) (e : fetch_event)   (* effect of that trip's fetch *)
| WriteFile (path : string) (content : FeatureCollection)
| RemoveFile (path : string)
| Pause (seconds : Z).                      (* [asyncio.sleep] of the driver *)

Record state := {
  files : gmap string FeatureCollection;
  log : list event
}.

(** State passing with exceptions: the state reached is kept when the
    computation raises. *)
Definition M (A : Type) : Type := state -> result A * state.

#[export] Instance M_ret : MRet M := fun A a s => (Ok a, s).
#[export] Instance M_bind : MBind M := fun A B k m s =>
  match m s with
  | (Ok a, s') => k a s'
  | (Raise e, s') => (Raise e, s')
  end.

Definition emit (evs : list event) : M unit :=
  fun s => (Ok tt, {| files := files s; log := log s ++ evs |}).

Definition lift {A} (r : result A) : M A := fun s => (r, s).

(** [os.path.exists(path)] *)
Definition path_exists (path : string) : M bool :=
  fun s => (Ok (bool_decide (is_Some (files s !! path))), s).

(** [json.load] of the opened [path]. *)
Definition json_load (path : string) : M FeatureCollection :=
  fun s => match files s !! path with
           | Some content => (Ok content, s)
           | None => (Raise FileNotFoundError, s)
           end.

(** [json.dump] of [content] into [path], opened for writing. *)
Definition json_dump (path : string) (content : FeatureCollection) : M unit :=
  fun s => (Ok tt, {| files := <[path := content]> (files s);
                      log := log s ++ [WriteFile path content] |}).

(** [os.remove(path)] *)
Definition os_remove (path : string) : M unit :=
  fun s => match files s !! path with
           | Some _ => (Ok tt, {| files := delete path (files s);
                                  log := log s ++ [RemoveFile path] |})
           | None => (Raise FileNotFoundError, s)
           end.

(** [await asyncio.sleep(seconds)] in the driver. *)
Definition sleep (seconds : Z) : M unit := emit [Pause seconds].

(** [asyncio.gather] over the tasks: the results in task order when every
    task completes, an exception when one raises.  [asyncio.gather] reports
    the exception raised first in time; the tasks are evaluated in launch
    order here, so that the one reported is the first in task order.  When
    several tasks raise, only the fact that the gathering fails is
    meaningful, not which of their exceptions it reports. *)
Fixpoint gather {A} (tasks : list (result A)) : result (list A) :=
  match tasks with
  | [] => Ok []
  | t :: tasks' =>
      rbind t (fun a => rbind (gather tasks') (fun rest => Ok (a :: rest)))
  end.

(** [range(0, stop, step)] for a non-negative [step]. *)
Definition range_step (stop step : nat) : result (list nat) :=
  if (step =? 0)%nat then Raise ValueError
  else Ok (map (fun k => (k * step)%nat) (seq 0 ((stop + step - 1) / step)%nat)).

(** [l[i:j]] for [0 <= i <= j]. *)
Definition slice {A} (l : list A) (i j : nat) : list A :=
  take (j - i) (drop i l).

(** ** Timestamp Interpolator *)

(** [a / b] on two [int]s. *)
Definition truediv (a b : Z) : result Q :=
  if b =? 0 then Raise ZeroDivisionError else Ok (inject_Z a / inject_Z b)%Q.

(** [strftime("%Y-%m-%dT%H:%M:%S")] drops the fraction of a second; the text
    is identified with the whole second it denotes. *)
Definition strftime (t : Q) : Z := Qfloor t.

(** The loop of lines 92-95 over the remaining indices of
    [range(num_points)], appending to [times]. *)
Fixpoint interpolate (start_time duration_seconds : Q) (num_points : nat)
    (range : list nat) (times : list Z) : result (list Z) :=
  match range with
  | [] => Ok times
  | i :: range' =>
      rbind (truediv (Z.of_nat i) (Z.of_nat num_points - 1)) (fun frac =>
      let point_time := (start_time + duration_seconds * frac)%Q in
      interpolate start_time duration_seconds num_points range'
        (times ++ [strftime point_time]))
  end.

Section Pipeline.
Context (cfg : Config).

(** The body of [process_trip] under the semaphore (which the
    [Coordinator] module below models); [trip_num] and [total_trips] only
    feed [print]. *)
Definition process_trip (session : nat -> outcome) (row : Trip)
  : result (option Feature) * list fetch_event :=
  match pickup_location_latitude row, pickup_location_longitude row with
  | Some pickup_lat, Some pickup_lng =>
      let dropoff_lat := default pickup_lat (dropoff_location_latitude row) in
      let dropoff_lng := default pickup_lng (dropoff_location_longitude row) in
      let '(route_data, evs) :=
        get_osrm_route cfg session pickup_lng pickup_lat dropoff_lng dropoff_lat 0 in
      (match route_data with
       | PyNone => Ok None
       | PyList l =>
           (* a non-empty list is true, and has no ["coordinates"] *)
           if truthy l then Raise TypeError else Ok None
       | PyDict d =>
           let start_time := start_time_local row in
           let end_time := end_time_local row in
           let duration_seconds := (end_time - start_time)%Q in
           rbind (len (rd_coordinates d)) (fun num_points =>
           rbind (interpolate start_time duration_seconds num_points
                    (seq 0 num_points) []) (fun times =>
           rbind (as_num (rd_distance d)) (fun shown_distance =>
           rbind (as_num (rd_duration d)) (fun shown_duration =>
           Ok (Some
             {| feature_type := "Feature";
                properties :=
                  {| tripId := trip_ID row;
                     times := times;
                     duration := rd_duration d;
                     distance := rd_distance d;
                     average_speed := rd_average_speed d;
                     popup :=
                       {| popup_trip := trip_ID row;
                          popup_start := start_time;
                          popup_end := end_time;
                          popup_distance := shown_distance;
                          popup_duration := shown_duration;
                          popup_average_speed := rd_average_speed d |} |};
                geometry :=
                  {| geometry_type := "LineString";
                     coordinates := rd_coordinates d |} |})))))
       end, evs)
  | _, _ => (Ok None, [])
  end.

(** The oracle: [world row k] is the outcome of the request issued for
    [row] at retry number [k]. *)
Context (world : Trip -> nat -> outcome).

(** Lines 120-127.  The tasks of a chunk interleave; each one's result
    depends on its own requests only, so they are evaluated in launch
    order and their effects logged in that order. *)
Definition process_chunk (chunk_data : list Trip) : M (list Feature) :=
  let tasks := map (fun row => (row, process_trip (world row) row)) chunk_data in
  emit (concat (map (fun '(row, (_, evs)) => map (Fetching (trip_ID row)) evs) tasks));;
  results ← lift (gather (map (fun t => fst (snd t)) tasks));
  mret (omap id results).

(** The [for i, chunk in enumerate(chunks, 1)] loop of lines 154-169. *)
Fixpoint chunk_loop (total_chunks i : nat) (chunks : list (list Trip))
    (features : list Feature) : M (list Feature) :=
  match chunks with
  | [] => mret features
  | chunk :: chunks' =>
      chunk_features ← process_chunk chunk;
      let features := features ++ chunk_features in
      json_dump partial_path
        {| collection_type := "FeatureCollection"; features := Some features |};;
      (if (i <? total_chunks)%nat then sleep 2 else mret tt);;
      chunk_loop total_chunks (S i) chunks' features
  end.

(** Lines 134-141: the collection restored from the checkpoint and the
    trips that stay on the work list. *)
Definition resume (trips_data : list Trip) : M (list Feature * list Trip) :=
  found ← path_exists partial_path;
  if found : bool then
    existing_data ← json_load partial_path;
    let features := default [] (features existing_data) in
    let processed_ids : gset string := list_to_set (map (fun f => tripId (properties f)) features) in
    mret (features, filter (fun row => trip_ID row ∉ processed_ids) trips_data)
  else mret ([], trips_data).

Definition process_trips (trips_data : list Trip) : M (list Feature) :=
  '(features, trips_data) ← resume trips_data;
  starts ← lift (range_step (length trips_data) (CHUNK_SIZE cfg));
  let chunks := map (fun i => slice trips_data i (i + CHUNK_SIZE cfg)) starts in
  let total_chunks := length chunks in
  chunk_loop total_chunks 1 chunks features.

(** [main], from the loaded table [df] on. *)
Definition main (df : list Trip) : M unit :=
  features ← process_trips df;
  json_dump final_path
    {| collection_type := "FeatureCollection"; features := Some features |};;
  found ← path_exists partial_path;
  if found : bool then os_remove partial_path else mret tt.

End Pipeline.


(** ** Vocabulary of the properties *)

(** How one attempt ends, read off the branches of [get_osrm_route]. *)
Inductive verdict :=
| RateLimited
| Failed
| Usable (d : route_dict).

Definition verdict_of (start_lng start_lat end_lng end_lat : Q) (o : outcome)
  : verdict :=
  match o with
  | Response status body =>
      if status =? 429 then RateLimited
      else match body with
           | Some data =>
               match interpret data start_lng start_lat end_lng end_lat with
               | Ok d => Usable d
               | Raise _ => Failed
               end
           | None => Failed
           end
  | _ => Failed
  end.

(** What is returned when the last permitted attempt ends in [v]. *)
Definition exhausted (start_lng start_lat end_lng end_lat : Q) (v : verdict)
  : route_data :=
  match v with
  | RateLimited => PyNone
  | Failed => PyList (direct_line start_lng start_lat end_lng end_lat)
  | Usable d => PyDict d
  end.

(** The requests and sleeps of [n] consecutive attempts, numbered from
    [from], that each ask for a retry. *)
Definition retries (cfg : Config) (start_lng start_lat end_lng end_lat : Q)
    (from n : nat) : list fetch_event :=
  flat_map
    (fun k => [Get start_lng start_lat end_lng end_lat k;
               Sleep (Z.min (INITIAL_WAIT cfg * 2 ^ Z.of_nat k) (MAX_WAIT cfg))])
    (seq from n).

(** [len(times) == len(coordinates) >= 1] *)
Definition aligned (f : Feature) : Prop :=
  len (coordinates (geometry f)) = Ok (length (times (properties f))) /\
  (1 <= length (times (properties f)))%nat.

Definition collection_ok (c : FeatureCollection) : Prop :=
  forall fs, features c = Some fs -> Forall aligned fs.

(** Identifiers of the Features of a collection. *)
Definition ids (fs : list Feature) : list string :=
  map (fun f => tripId (properties f)) fs.

(** The driver's own effects, as opposed to those of the fetches. *)
Definition by_driver (e : event) : bool :=
  match e with Fetching _ _ => false | _ => true end.


Definition fresh (fs : gmap string FeatureCollection) : state :=
  {| files := fs; log := [] |}.

(** The effects of the fetches of a chunk, and what gathering its tasks
    gives the driver. *)
Definition chunk_events (cfg : Config) (world : Trip -> nat -> outcome)
    (chunk : list Trip) : list event :=
  concat (map (fun row => map (Fetching (trip_ID row))
                            (process_trip cfg (world row) row).2) chunk).

Definition chunk_result (cfg : Config) (world : Trip -> nat -> outcome)
    (chunk : list Trip) : result (list Feature) :=
  rbind (gather (map (fun row => (process_trip cfg (world row) row).1) chunk))
        (fun results => Ok (omap id results)).

(** An effect is in order when a fetch is for an allowed trip and a written
    collection holds good Features only. *)
Definition ok_event (allowed : string -> Prop) (good : Feature -> Prop)
    (e : event) : Prop :=
  match e with
  | Fetching trip _ => allowed trip
  | WriteFile _ content => forall fs, features content = Some fs -> Forall good fs
  | _ => True
  end.

(** The trips [resume] leaves on the work list, and the collection it
    starts from. *)
Definition work_list (fs : gmap string FeatureCollection) (df : list Trip)
  : list Trip :=
  match fs !! partial_path with
  | Some existing_data =>
      filter (fun row => trip_ID row ∉
                (list_to_set (ids (default [] (features existing_data))) : gset string))
             df
  | None => df
  end.

Definition restored (fs : gmap string FeatureCollection) : list Feature :=
  match fs !! partial_path with
  | Some existing_data => default [] (features existing_data)
  | None => []
  end.

(** ** Concurrency Coordinator

    [process_chunk] creates one [asyncio.Semaphore(CONCURRENT_REQUESTS)] and
    every task runs its whole body inside [async with semaphore].  The event
    loop is modelled as a transition system over the semaphore's counter and
    the position of each task: a task enters the block by taking a unit of
    the counter (it cannot while the counter is 0), performs the requests and
    sleeps of its fetch one at a time, and gives the unit back on leaving. *)

Module Coordinator.

Inductive task :=
| Waiting                                 (* before [async with semaphore] *)
| Holding (pending : list fetch_event)    (* inside, with this left to do *)
| Released.                               (* after the block *)

Record sem := {
  value : nat;          (* the semaphore's counter *)
  tasks : list task     (* one per row of the chunk, in launch order *)
}.

Definition holding (t : task) : bool :=
  match t with Holding _ => true | _ => false end.

Definition fetching (t : task) : bool :=
  match t with Holding (_ :: _) => true | _ => false end.

Definition count (p : task -> bool) (s : sem) : nat :=
  length (List.filter p (tasks s)).

(** Tasks inside the block, and those among them whose fetch is under way. *)
Definition in_block (s : sem) : nat := count holding s.
Definition outstanding (s : sem) : nat := count fetching s.

Section Chunk.
Context (cfg : Config) (world : Trip -> nat -> outcome) (chunk : list Trip).

Definition init : sem :=
  {| value := CONCURRENT_REQUESTS cfg; tasks := map (fun _ => Waiting) chunk |}.

Inductive step : sem -> sem -> Prop :=
| acquire i row v ts :
    ts !! i = Some Waiting ->
    chunk !! i = Some row ->
    step {| value := S v; tasks := ts |}
         {| value := v;
            tasks := <[i := Holding (process_trip cfg (world row) row).2]> ts |}
| advance i e evs v ts :
    ts !! i = Some (Holding (e :: evs)) ->
    step {| value := v; tasks := ts |}
         {| value := v; tasks := <[i := Holding evs]> ts |}
| release i v ts :
    ts !! i = Some (Holding []) ->
    step {| value := v; tasks := ts |}
         {| value := S v; tasks := <[i := Released]> ts |}.

Definition reachable (s : sem) : Prop := rtc step init s.

End Chunk.
End Coordinator.

(** ** Sample data used to exercise the definitions *)

Definition sample_trip (id : string) (pickup : option Q) (start_time end_time : Q)
  : Trip :=
  {| trip_ID := id;
     pickup_location_latitude := pickup;
     pickup_location_longitude := pickup;
     dropoff_location_latitude := Some 3%Q;
     dropoff_location_longitude := None;
     start_time_local := start_time;
     end_time_local := end_time |}.

(** A payload of the routing service with [n] route points, 10 s, 50 m. *)
Definition payload (code : string) (n : nat) : json :=
  JObj [("code", JStr code);
        ("routes",
         JArr [JObj [("geometry",
                      JObj [("coordinates", JArr (repeat (JArr [JNum 1; JNum 2]) n))]);
                     ("duration", JNum 10);
                     ("distance", JNum 50)]])].

Definition always (o : outcome) : nat -> outcome := fun _ => o.

(** The service times out for trip ["B"] and answers every other trip. *)
Definition flaky_world (row : Trip) : nat -> outcome :=
  if String.eqb (trip_ID row) "B" then always TimedOut
  else always (Response 200 (Some (payload "Ok" 4))).

Definition steady_world (row : Trip) : nat -> outcome :=
  always (Response 200 (Some (payload "Ok" 4))).

Definition three_trips : list Trip :=
  [sample_trip "A" None 0 10; sample_trip "B" (Some 1%Q) 0 10;
   sample_trip "C" (Some 1%Q) 0 10].

Definition five_trips : list Trip :=
  [sample_trip "A" (Some 1%Q) 0 10; sample_trip "B" (Some 1%Q) 0 10;
   sample_trip "C" (Some 1%Q) 0 10; sample_trip "D" (Some 1%Q) 5 10;
   sample_trip "E" (Some 1%Q) 0 10].

Definition two_slots : Config :=
  {| MAX_RETRIES := 5; INITIAL_WAIT := 1; MAX_WAIT := 120;
     CONCURRENT_REQUESTS := 2; CHUNK_SIZE := 1000 |}.

(** Two tasks of [five_trips] are inside the block, three wait. *)
Definition two_inside : Coordinator.sem :=
  {| Coordinator.value := 0;
     Coordinator.tasks :=
       [Coordinator.Holding [Get 1 1 1 3 0]; Coordinator.Holding [Get 1 1 1 3 0];
        Coordinator.Waiting; Coordinator.Waiting; Coordinator.Waiting] |}.

(** A Feature as an earlier run leaves it in the checkpoint. *)
Definition sample_feature (id : string) : Feature :=
  {| feature_type := "Feature";
     properties :=
       {| tripId := id; times := [0; 10];
          duration := JNum 0; distance := JNum 0; average_speed := 0;
          popup := {| popup_trip := id; popup_start := 0; popup_end := 10;
                      popup_distance := 0; popup_duration := 0;
                      popup_average_speed := 0 |} |};
     geometry :=
       {| geometry_type := "LineString";
          coordinates := direct_line 1 1 1 3 |} |}.

(** A checkpoint that holds the Features of trips ["A"] and ["B"]. *)
Definition checkpoint_AB : gmap string FeatureCollection :=
  {[ partial_path :=
       {| collection_type := "FeatureCollection";
          features := Some [sample_feature "A"; sample_feature "B"] |} ]}.

Definition chunks_of_two : Config :=
  {| MAX_RETRIES := 5; INITIAL_WAIT := 1; MAX_WAIT := 120;
     CONCURRENT_REQUESTS := 10; CHUNK_SIZE := 2 |}.

(** The service times out for the trip called [id] and answers the others. *)
Definition failing_world (id : string) (row : Trip) : nat -> outcome :=
  if String.eqb (trip_ID row) id then always TimedOut
  else always (Response 200 (Some (payload "Ok" 4))).

(** ** Work left in a chunk *)

(** Steps a task can still take: to enter the block, to perform what is
    left of its fetch (at most MAX_RETRIES sleeps and MAX_RETRIES + 1
    requests), and to leave. *)
Definition task_weight (cfg : Config) (t : Coordinator.task) : nat :=
  match t with
  | Coordinator.Waiting => 2 * MAX_RETRIES cfg + 3
  | Coordinator.Holding pending => length pending + 1
  | Coordinator.Released => 0
  end.

Definition remaining_work (cfg : Config) (s : Coordinator.sem) : nat :=
  list_sum (map (task_weight cfg) (Coordinator.tasks s)).

(** ** The driver's own effects, without the content written *)

Inductive mark :=
| Wrote (path : string)     (* that file was written *)
| Paused (seconds : Z)      (* the driver slept *)
| Removed (path : string).  (* that file was removed *)

Definition mark_of (e : event) : option mark :=
  match e with
  | Fetching _ _ => None
  | WriteFile path _ => Some (Wrote path)
  | RemoveFile path => Some (Removed path)
  | Pause seconds => Some (Paused seconds)
  end.

Definition marks (evs : list event) : list mark := omap mark_of evs.

(** ** Interval slicing ([generate_time_intervals.py])

    The tool reads the pipeline's output.  A timestamp text is identified
    with the whole second it denotes, as in [strftime] above, so
    [parse_timestamp] is the identity; a file name
    [points_%Y%m%d_%H%M.json] is identified with the interval instant it is
    made from.  The interval length is a positive number of minutes (with
    zero the rounding divides by zero, with a negative one the loop does not
    end).  An instant is counted in seconds from 1970-01-01T00:00:00, so that
    the range of [datetime] is [datetime_min .. datetime_max]; outside it
    the arithmetic of [datetime] raises, as does a [timedelta] of 10^9 days
    or more. *)

Module Intervals.

(** [list(s)]: the one-character strings of [s]. *)
Fixpoint chars (s : string) : list json :=
  match s with
  | EmptyString => []
  | String c s' => JStr (String c EmptyString) :: chars s'
  end.

(** [l[i]] on a Python sequence of length [length l], for any [int] i. *)
Definition index {A} (l : list A) (i : Z) : result A :=
  let n := Z.of_nat (length l) in
  let j := if i <? 0 then n + i else i in
  if (0 <=? j) && (j <? n) then
    match l !! Z.to_nat j with Some x => Ok x | None => Raise IndexError end
  else Raise IndexError.

(** [d[i]] for an [int] i. *)
Definition getitem_int (d : json) (i : Z) : result json :=
  match d with
  | JArr l => index l i
  | JStr s => index (chars s) i
  | JObj _ => Raise KeyError
  | _ => Raise TypeError
  end.

(** [iter(d)], as [zip] needs it. *)
Definition iterate (d : json) : result (list json) :=
  match d with
  | JArr l => Ok l
  | JStr s => Ok (chars s)
  | JObj kv => Ok (map (fun '(k, _) => JStr k) kv)
  | _ => Raise TypeError
  end.

(** [zip(a, b)]: pairs up to the shorter of the two. *)
Fixpoint zip {A B} (a : list A) (b : list B) : list (A * B) :=
  match a, b with
  | x :: a', y :: b' => (x, y) :: zip a' b'
  | _, _ => []
  end.

(** [min(l)] and [max(l)]. *)
Definition minimum (l : list Z) : result Z :=
  match l with
  | [] => Raise ValueError
  | x :: l' => Ok (foldl Z.min x l')
  end.

Definition maximum (l : list Z) : result Z :=
  match l with
  | [] => Raise ValueError
  | x :: l' => Ok (foldl Z.max x l')
  end.

(** [datetime.min] and [datetime.max], to the second. *)
Definition datetime_min : Z := -62135596800.   (* 0001-01-01T00:00:00 *)
Definition datetime_max : Z := 253402300799.   (* 9999-12-31T23:59:59 *)

(** [t + delta] on a [datetime] and a [timedelta] ([t - delta] with the
    opposite [delta]): the result has to be a [datetime]. *)
Definition datetime_add (t delta : Z) : result Z :=
  if (datetime_min <=? t + delta) && (t + delta <=? datetime_max)
  then Ok (t + delta) else Raise OverflowError.

(** [timedelta(minutes=m)] in seconds, for a positive [m]: fewer than 10^9
    days. *)
Definition timedelta_minutes (m : Z) : result Z :=
  if 60 * m <? 86400 * 1000000000 then Ok (60 * m) else Raise OverflowError.

Record Point := {
  route_id : string;
  longitude : json;
  latitude : json;
  timestamp : Z;
  point_type : string
}.

(** The dict built at lines 70-76, 93-99 and 106-112. *)
Definition make_point (trip_id : string) (coord : json) (point_time : Z)
    (type : string) : result Point :=
  rbind (getitem_int coord 0) (fun lon =>
  rbind (getitem_int coord 1) (fun lat =>
  Ok {| route_id := trip_id; longitude := lon; latitude := lat;
        timestamp := point_time; point_type := type |})).

(** Lines 65-78: the first pair at the last index whose time is within a
    minute of [current_time]; the loop stops there. *)
Fixpoint interval_end (trip_id : string) (current_time last_idx : Z)
    (point_idx : nat) (pairs : list (Z * json)) : result (list Point) :=
  match pairs with
  | [] => Ok []
  | (point_time, coord) :: pairs' =>
      let time_diff := Z.abs (point_time - current_time) in
      if (time_diff <? 60) && (Z.of_nat point_idx =? last_idx) then
        rbind (make_point trip_id coord point_time "interval_end") (fun end_point =>
        Ok [end_point])
      else interval_end trip_id current_time last_idx (S point_idx) pairs'
  end.

(** Lines 89-99: the scan that keeps the point strictly closer than all
    before it. *)
Fixpoint closest (trip_id : string) (current_time : Z) (pairs : list (Z * json))
    (min_time_diff : Z) (closest_point : option Point) : result (option Point) :=
  match pairs with
  | [] => Ok closest_point
  | (point_time, coord) :: pairs' =>
      let time_diff := Z.abs (point_time - current_time) in
      if time_diff <? min_time_diff then
        rbind (make_point trip_id coord point_time "ongoing") (fun p =>
        closest trip_id current_time pairs' time_diff (Some p))
      else closest trip_id current_time pairs' min_time_diff closest_point
  end.

(** Lines 55-113: the points one route contributes to the interval at
    [current_time]. *)
Definition route_points (current_time interval_delta : Z) (feature : Feature)
  : result (list Point) :=
  let coordinates := coordinates (geometry feature) in
  let timestamps := times (properties feature) in
  let trip_id := tripId (properties feature) in
  rbind (index timestamps 0) (fun first_timestamp =>
  rbind (index timestamps (-1)) (fun last_timestamp =>
  let last_idx := Z.of_nat (length timestamps) - 1 in
  rbind (iterate coordinates) (fun coords =>
  rbind (interval_end trip_id current_time last_idx 0 (zip timestamps coords))
    (fun at_end =>
  rbind (datetime_add current_time (- interval_delta)) (fun interval_start =>
  rbind (if (first_timestamp <? current_time) && (current_time <? last_timestamp)
         then
           rbind (iterate coordinates) (fun coords' =>
           rbind (closest trip_id current_time (zip timestamps coords')
                    interval_delta None) (fun closest_point =>
           Ok (match closest_point with Some p => [p] | None => [] end)))
         else Ok []) (fun ongoing =>
  rbind (if (interval_start <? last_timestamp)
            && (last_timestamp <? current_time - 60)
         then
           rbind (getitem_int coordinates (-1)) (fun last_coord =>
           rbind (make_point trip_id last_coord last_timestamp "previous_end")
             (fun end_point => Ok [end_point]))
         else Ok []) (fun previous =>
  Ok (at_end ++ ongoing ++ previous)))))))).

(** The loop over the routes of lines 54-113. *)
Fixpoint interval_points (current_time interval_delta : Z)
    (features : list Feature) : result (list Point) :=
  match features with
  | [] => Ok []
  | feature :: features' =>
      rbind (route_points current_time interval_delta feature) (fun points =>
      rbind (interval_points current_time interval_delta features') (fun rest =>
      Ok (points ++ rest)))
  end.

(** One written file: its instant, the start of its interval and its points
    (each of which the file holds as one Point Feature). *)
Record IntervalFile := {
  interval_time : Z;
  interval_start : Z;
  points : list Point
}.

(** The [while current_time <= end_time] loop: the files written, and how the
    loop ends.  The start of the interval written into a file is the
    difference line 81 has computed for every route; the sum of line 147 is
    computed at the end of every turn, also of the last one. *)
Equations? intervals (features : list Feature) (interval_minutes : positive)
    (end_time current_time : Z) : list IntervalFile * result unit
    by wf (Z.to_nat (end_time - current_time + 1)) lt :=
intervals features interval_minutes end_time current_time :=
  let interval_delta := 60 * Z.pos interval_minutes in
  match Z_le_dec current_time end_time with
  | left _ =>
      match interval_points current_time interval_delta features with
      | Raise e => ([], Raise e)
      | Ok interval_points =>
          let written :=
            match interval_points with
            | [] => []
            | _ => [{| interval_time := current_time;
                       interval_start := current_time - interval_delta;
                       points := interval_points |}]
            end in
          match datetime_add current_time interval_delta with
          | Raise e => (written, Raise e)
          | Ok _ =>
              let '(later, r) :=
                intervals features interval_minutes end_time
                  (current_time + interval_delta) in
              (written ++ later, r)
          end
      end
  | right _ => ([], Ok tt)
  end.
Proof. lia. Qed.

(** [generate_interval_files], from the loaded [routes] on. *)
Definition generate_interval_files (routes : FeatureCollection)
    (interval_minutes : positive) : list IntervalFile * result unit :=
  match features routes with
  | None => ([], Raise KeyError)
  | Some features =>
      let all_timestamps := concat (map (fun f => times (properties f)) features) in
      match minimum all_timestamps, maximum all_timestamps with
      | Ok start_time, Ok end_time =>
          let minutes := (start_time mod 3600) / 60 in
          let rounded_minutes :=
            minutes / Z.pos interval_minutes * Z.pos interval_minutes in
          let start_time := start_time - start_time mod 3600 + 60 * rounded_minutes in
          match timedelta_minutes (Z.pos interval_minutes) with
          | Ok _ => intervals features interval_minutes end_time start_time
          | Raise e => ([], Raise e)
          end
      | Raise e, _ => ([], Raise e)
      | _, Raise e => ([], Raise e)
      end
  end.

End Intervals.

(** A Feature of the output file with the given times and coordinates. *)
Definition route (id : string) (route_times : list Z) (route_coordinates : json)
  : Feature :=
  {| feature_type := "Feature";
     properties :=
       {| tripId := id; times := route_times;
          duration := JNum 0; distance := JNum 0; average_speed := 0;
          popup := {| popup_trip := id; popup_start := 0; popup_end := 0;
                      popup_distance := 0; popup_duration := 0;
                      popup_average_speed := 0 |} |};
     geometry :=
       {| geometry_type := "LineString"; coordinates := route_coordinates |} |}.

Definition lonlat (lon lat : Z) : json :=
  JArr [JNum (inject_Z lon); JNum (inject_Z lat)].

(** Three routes around the hour 3600: one under way, one ending within a
    minute of it, one that ended earlier in the hour before. *)
Definition three_routes : list Feature :=
  [route "A" [0; 1800; 3600; 5400]
     (JArr [lonlat 0 0; lonlat 1 1; lonlat 2 2; lonlat 3 3]);
   route "B" [100; 3590] (JArr [lonlat 5 5; lonlat 6 6]);
   route "C" [100; 200] (JArr [lonlat 7 7; lonlat 8 8])].

(** A route as the slicing tool expects it: at least one time, and as
    coordinates a non-empty list of points with two components or more. *)
Definition point_shaped (f : Feature) : Prop :=
  times (properties f) <> []
  /\ exists cs,
       coordinates (geometry f) = JArr cs
       /\ cs <> []
       /\ Forall (fun c => exists x y rest, c = JArr (x :: y :: rest)) cs.

(** All the times of a collection's routes. *)
Definition all_times (fs : list Feature) : list Z :=
  concat (map (fun f => times (properties f)) fs).

(** ** Measures of a fetch *)

(** Number of requests in a trace, and seconds slept in it. *)
Definition requests (evs : list fetch_event) : nat :=
  length (List.filter (fun e => match e with Get _ _ _ _ _ => true | _ => false end) evs).

Fixpoint slept (evs : list fetch_event) : Z :=
  match evs with
  | [] => 0
  | Sleep seconds :: evs' => seconds + slept evs'
  | _ :: evs' => slept evs'
  end.

(** The status that marks a rate-limited answer. *)
Definition rate_limited (o : outcome) : bool :=
  match o with
  | Response status _ => status =? 429
  | _ => false
  end.

(** ** Collections written by the driver *)

(** The dict [{"type": "FeatureCollection", "features": feats}]. *)
Definition collection_of (feats : list Feature) : FeatureCollection :=
  {| collection_type := "FeatureCollection"; features := Some feats |}.

(** ** What the rows of the table contribute *)

(** The task of a row completes: it returns a Feature or [None]. *)
Definition completes (cfg : Config) (world : Trip -> nat -> outcome) (row : Trip)
  : Prop :=
  exists made, (process_trip cfg (world row) row).1 = Ok made.

(** The Feature of a row, if its task returns one. *)
Definition feature_of (cfg : Config) (world : Trip -> nat -> outcome) (row : Trip)
  : option Feature :=
  match (process_trip cfg (world row) row).1 with
  | Ok (Some f) => Some f
  | _ => None
  end.

(** * Properties *)

(** ** Route Fetch Client and Backoff Policy *)

Section FetchClientFacts.
Context (cfg : Config) (session : nat -> outcome).
Context (start_lng start_lat end_lng end_lat : Q).

Local Notation "'fetch'" :=
  (get_osrm_route cfg session start_lng start_lat end_lng end_lat).
Local Notation "'request'" := (Get start_lng start_lat end_lng end_lat).
Local Notation "'verdict_at' k" :=
  (verdict_of start_lng start_lat end_lng end_lat (session k))
  (at level 10, k at level 9).

Lemma fetch_usable retry_count d :
  verdict_at retry_count = Usable d ->
  fetch retry_count = (PyDict d, [request retry_count]).
Proof.
  intros Hv. rewrite get_osrm_route_equation_1. cbv zeta.
  unfold verdict_of in Hv.
  destruct (session retry_count) as [| |status body]; try discriminate.
  destruct (status =? 429); try discriminate.
  destruct body as [data|]; try discriminate.
  destruct (interpret data _ _ _ _); congruence.
Qed.

Lemma fetch_retry retry_count :
  (forall d, verdict_at retry_count <> Usable d) ->
  (retry_count < MAX_RETRIES cfg)%nat ->
  fetch retry_count =
    ((fetch (S retry_count)).1,
     request retry_count :: Sleep (wait_time cfg retry_count)
       :: (fetch (S retry_count)).2).
Proof.
  intros Hv Hlt. rewrite get_osrm_route_equation_1. cbv zeta.
  unfold verdict_of in Hv.
  destruct (lt_dec retry_count (MAX_RETRIES cfg)) as [_|]; [|lia].
  destruct (fetch (S retry_count)) as [r evs]. simpl.
  destruct (session retry_count) as [| |status body]; try reflexivity.
  destruct (status =? 429); try reflexivity.
  destruct body as [data|]; try reflexivity.
  destruct (interpret data _ _ _ _) as [d|]; try reflexivity.
  exfalso. exact (Hv d eq_refl).
Qed.

Lemma fetch_exhausted retry_count :
  (MAX_RETRIES cfg <= retry_count)%nat ->
  fetch retry_count =
    (exhausted start_lng start_lat end_lng end_lat (verdict_at retry_count),
     [request retry_count]).
Proof.
  intros Hge. rewrite get_osrm_route_equation_1. cbv zeta.
  unfold verdict_of.
  destruct (lt_dec retry_count (MAX_RETRIES cfg)) as [|_]; [lia|].
  destruct (session retry_count) as [| |status body]; try reflexivity.
  destruct (status =? 429); try reflexivity.
  destruct body as [data|]; try reflexivity.
  destruct (interpret data _ _ _ _) as [d|]; reflexivity.
Qed.

(** Shape of every trace: retries at consecutive attempt numbers, each
    followed by its backoff sleep, then one last request. *)
Lemma fetch_trace retry_count :
  exists n, (retry_count + n <= Nat.max retry_count (MAX_RETRIES cfg))%nat /\
    (fetch retry_count).2 =
      retries cfg start_lng start_lat end_lng end_lat retry_count n
        ++ [request (retry_count + n)%nat].
Proof.
  remember (MAX_RETRIES cfg - retry_count)%nat as m eqn:Hm.
  revert retry_count Hm.
  induction m as [|m IH]; intros retry_count Hm;
    destruct (verdict_at retry_count) as [| |d] eqn:Hv.
  1,2,3: exists 0%nat; split; [lia|];
       rewrite fetch_exhausted by lia;
       simpl; rewrite Nat.add_0_r; reflexivity.
  3: exists 0%nat; split; [lia|]; rewrite (fetch_usable _ d Hv);
     simpl; rewrite Nat.add_0_r; reflexivity.
  all: destruct (IH (S retry_count)) as (n & Hn & Htr); [lia|];
       exists (S n); split; [lia|];
       rewrite fetch_retry by (congruence || lia);
       unfold wait_time; cbn [snd retries flat_map seq app] in *; rewrite Htr;
       replace (retry_count + S n)%nat with (S retry_count + n)%nat by lia;
       reflexivity.
Qed.

End FetchClientFacts.

Lemma verdict_rate_limited a b c d body :
  verdict_of a b c d (Response 429 body) = RateLimited.
Proof. reflexivity. Qed.

Lemma rate_limited_from cfg session a b c d :
  (forall k, exists body, session k = Response 429 body) ->
  forall m k, (k + m = MAX_RETRIES cfg)%nat ->
    get_osrm_route cfg session a b c d k =
      (PyNone, retries cfg a b c d k m ++ [Get a b c d (MAX_RETRIES cfg)]).
Proof.
  intros Hall. induction m as [|m IH]; intros k Hk.
  - rewrite fetch_exhausted by lia. destruct (Hall k) as [body ->].
    rewrite verdict_rate_limited. simpl. f_equal. f_equal. f_equal. lia.
  - rewrite fetch_retry; [|destruct (Hall k) as [body ->]; discriminate|lia].
    rewrite (IH (S k)) by lia. reflexivity.
Qed.

(** C9.  The wait the Backoff Policy gives for attempt number [attempt]
    (counted from 0) is min(INITIAL_WAIT * 2^attempt, MAX_WAIT); it is a
    function of the attempt number alone, so equal attempts get equal waits;
    and these are the waits the client sleeps: every trace of
    [get_osrm_route] is a run of requests at consecutive attempt numbers
    [k], each followed by a sleep of min(INITIAL_WAIT * 2^k, MAX_WAIT),
    closed by one last request. *)
Theorem backoff_policy cfg attempt :
  wait_time cfg attempt
    = Z.min (INITIAL_WAIT cfg * 2 ^ Z.of_nat attempt) (MAX_WAIT cfg)
  /\ (forall attempt', attempt' = attempt ->
        wait_time cfg attempt' = wait_time cfg attempt)
  /\ (forall session a b c d retry_count, exists n,
        (get_osrm_route cfg session a b c d retry_count).2
          = flat_map
              (fun k => [Get a b c d k;
                         Sleep (Z.min (INITIAL_WAIT cfg * 2 ^ Z.of_nat k)
                                      (MAX_WAIT cfg))])
              (seq retry_count n)
            ++ [Get a b c d (retry_count + n)%nat]).
Proof.
  split; [reflexivity|]. split; [intros ? ->; reflexivity|].
  intros session a b c d retry_count.
  destruct (fetch_trace cfg session a b c d retry_count) as (n & _ & Htr).
  exists n. exact Htr.
Qed.

(** The waits of the module's own constants: 1, 2, 4, ... capped at 120. *)
Example backoff_default_values :
  map (wait_time default_config) (seq 0 9) = [1; 2; 4; 8; 16; 32; 64; 120; 120].
Proof. reflexivity. Qed.

(** C6.  When every attempt of a fetch is answered with status 429, the
    client retries with the next attempt number (after the backoff sleep) as
    long as the attempt number is below MAX_RETRIES, returns [None] (Dropped)
    at attempt MAX_RETRIES, so that the whole fetch is MAX_RETRIES retries
    followed by a last request and yields [None]; and [process_trip] then
    returns no Feature for the trip. *)
Theorem rate_limit_exhaustion_drops cfg session a b c d row :
  (forall k, exists body, session k = Response 429 body) ->
  (forall k, (k < MAX_RETRIES cfg)%nat ->
     get_osrm_route cfg session a b c d k =
       ((get_osrm_route cfg session a b c d (S k)).1,
        Get a b c d k :: Sleep (wait_time cfg k)
          :: (get_osrm_route cfg session a b c d (S k)).2))
  /\ (forall k, (MAX_RETRIES cfg <= k)%nat ->
        get_osrm_route cfg session a b c d k = (PyNone, [Get a b c d k]))
  /\ get_osrm_route cfg session a b c d 0 =
       (PyNone,
        retries cfg a b c d 0 (MAX_RETRIES cfg) ++ [Get a b c d (MAX_RETRIES cfg)])
  /\ (process_trip cfg session row).1 = Ok None.
Proof.
  intros Hall. repeat split.
  - intros k Hk. apply fetch_retry; [|exact Hk].
    destruct (Hall k) as [body ->]. discriminate.
  - intros k Hk. rewrite fetch_exhausted by exact Hk.
    destruct (Hall k) as [body ->]. reflexivity.
  - apply rate_limited_from; [exact Hall|lia].
  - unfold process_trip.
    destruct (pickup_location_latitude row) as [lat|]; [|reflexivity].
    destruct (pickup_location_longitude row) as [lng|]; [|reflexivity].
    rewrite (rate_limited_from cfg session _ _ _ _ Hall (MAX_RETRIES cfg) 0%nat)
      by lia.
    reflexivity.
Qed.

Lemma rate_limit_exhaustion_drops_witness :
  get_osrm_route default_config (always (Response 429 None)) 1 1 1 3 0 =
    (PyNone,
     [Get 1 1 1 3 0; Sleep 1; Get 1 1 1 3 1; Sleep 2; Get 1 1 1 3 2; Sleep 4;
      Get 1 1 1 3 3; Sleep 8; Get 1 1 1 3 4; Sleep 16; Get 1 1 1 3 5])
  /\ (process_trip default_config (always (Response 429 None))
        (sample_trip "A" (Some 1%Q) 0 10)).1 = Ok None.
Proof.
  destruct (rate_limit_exhaustion_drops default_config
              (always (Response 429 None)) 1 1 1 3
              (sample_trip "A" (Some 1%Q) 0 10))
    as (_ & _ & Hrun & Hnone).
  - intros k. exists None. reflexivity.
  - split; [exact Hrun | exact Hnone].
Defined.

(** C10, as stated, fails: a body that parses as JSON, has an empty routes
    list and no code field at all (so its code is not ["Ok"]) does not end
    the fetch.  Reading [data["code"]] raises, the generic handler sleeps
    and retries, and when every attempt is answered so the result after
    MAX_RETRIES + 1 requests is the bare list of the two end points, not the
    dict with duration, distance and average speed 0. *)
Lemma payload_without_code_is_retried :
  getitem (JObj [("routes", JArr [])]) "code" = Raise KeyError
  /\ getitem (JObj [("routes", JArr [])]) "routes" = Ok (JArr [])
  /\ get_osrm_route default_config
       (always (Response 200 (Some (JObj [("routes", JArr [])])))) 1 2 3 4 0
     = (PyList (JArr [JArr [JNum 1; JNum 2]; JArr [JNum 3; JNum 4]]),
        [Get 1 2 3 4 0; Sleep 1; Get 1 2 3 4 1; Sleep 2; Get 1 2 3 4 2; Sleep 4;
         Get 1 2 3 4 3; Sleep 8; Get 1 2 3 4 4; Sleep 16; Get 1 2 3 4 5]).
Proof.
  split; [reflexivity|]. split; [reflexivity|]. vm_compute. reflexivity.
Qed.

(** C10, amended.  A response whose status is not 429 and whose body parses
    to a JSON object with a ["code"] field, where that field is not ["Ok"],
    or the ["routes"] list is empty, or the first route's coordinate list is
    empty, ends the fetch at once, whatever the status and the attempt
    number: one request, no sleep, no retry, and the result is the two-point
    line from origin to destination with duration, distance and average
    speed 0. *)
Theorem unusable_payload_is_degenerate cfg session a b c d retry_count
    status data code :
  session retry_count = Response status (Some data) ->
  status <> 429 ->
  getitem data "code" = Ok code ->
  (code <> JStr "Ok"
   \/ getitem data "routes" = Ok (JArr [])
   \/ exists route rest g,
        getitem data "routes" = Ok (JArr (route :: rest)) /\
        getitem route "geometry" = Ok g /\
        getitem g "coordinates" = Ok (JArr [])) ->
  get_osrm_route cfg session a b c d retry_count =
    (PyDict {| rd_coordinates := JArr [JArr [JNum a; JNum b]; JArr [JNum c; JNum d]];
               rd_duration := JNum 0; rd_distance := JNum 0;
               rd_average_speed := 0 |},
     [Get a b c d retry_count]).
Proof.
  intros Hresp Hstatus Hcode Hbad.
  apply fetch_usable. rewrite Hresp. unfold verdict_of.
  destruct (Z.eqb_spec status 429) as [|_]; [contradiction|].
  assert (interpret data a b c d = Ok (degenerate a b c d)) as ->;
    [|reflexivity].
  unfold interpret. rewrite Hcode. cbn [rbind].
  destruct (eq_str code "Ok") eqn:Hok; [|reflexivity].
  destruct Hbad as [Hne | [Hroutes | (route & rest & g & Hroutes & Hg & Hcs)]].
  - exfalso. apply Hne. destruct code; try discriminate.
    simpl in Hok. apply String.eqb_eq in Hok. congruence.
  - rewrite Hroutes. reflexivity.
  - rewrite Hroutes. cbn [rbind truthy getitem0]. rewrite Hg. cbn [rbind].
    rewrite Hcs. reflexivity.
Qed.

Lemma unusable_payload_is_degenerate_witness :
  get_osrm_route default_config
    (always (Response 500 (Some (JObj [("code", JStr "NoRoute"); ("routes", JArr [])]))))
    1 2 3 4 0
  = (PyDict {| rd_coordinates := JArr [JArr [JNum 1; JNum 2]; JArr [JNum 3; JNum 4]];
               rd_duration := JNum 0; rd_distance := JNum 0;
               rd_average_speed := 0 |},
     [Get 1 2 3 4 0]).
Proof.
  apply (unusable_payload_is_degenerate default_config _ 1 2 3 4 0%nat 500
           (JObj [("code", JStr "NoRoute"); ("routes", JArr [])]) (JStr "NoRoute")).
  - reflexivity.
  - lia.
  - reflexivity.
  - left. discriminate.
Defined.

(** ** Timestamp Interpolator *)

(** The timestamp of point [i] out of [n]: the whole second of
    [start_time + duration_seconds * (i / (n - 1))]. *)
Lemma interpolate_ok start_time duration_seconds n range acc :
  n <> 1%nat ->
  interpolate start_time duration_seconds n range acc =
    Ok (acc ++ map (fun i : nat =>
                      Qfloor (start_time + duration_seconds *
                                (inject_Z (Z.of_nat i) / inject_Z (Z.of_nat n - 1))))
                   range).
Proof.
  intros Hn. revert acc. induction range as [|i range IH]; intros acc.
  - simpl. rewrite app_nil_r. reflexivity.
  - simpl. unfold truediv.
    destruct (Z.eqb_spec (Z.of_nat n - 1) 0) as [Heq|_]; [lia|].
    cbn [rbind]. rewrite IH, <- app_assoc. reflexivity.
Qed.

Lemma interpolate_single start_time duration_seconds i range acc :
  interpolate start_time duration_seconds 1 (i :: range) acc
    = Raise ZeroDivisionError.
Proof. reflexivity. Qed.




(** ** What [process_trip] returns *)

Ltac crack :=
  repeat (cbn [rbind] in *;
          match goal with
          | H : Raise _ = Ok _ |- _ => discriminate H
          | H : Ok _ = Ok _ |- _ => injection H as H
          | H : context [rbind (getitem ?a ?k) _] |- _ =>
              destruct (getitem a k) eqn:?
          | H : context [rbind (getitem0 ?a) _] |- _ =>
              destruct (getitem0 a) eqn:?
          | H : context [rbind (operand ?a) _] |- _ =>
              destruct (operand a) eqn:?
          | H : context [if ?b then _ else _] |- _ => destruct b eqn:?
          end).

Lemma interpret_truthy data a b c d r :
  interpret data a b c d = Ok r -> truthy (rd_coordinates r) = true.
Proof.
  unfold interpret. intros H. crack; subst r; simpl; congruence.
Qed.

Lemma fetch_dict_truthy cfg session a b c d retry_count r :
  (get_osrm_route cfg session a b c d retry_count).1 = PyDict r ->
  truthy (rd_coordinates r) = true.
Proof.
  remember (MAX_RETRIES cfg - retry_count)%nat as m eqn:Hm.
  revert retry_count Hm.
  induction m as [|m IH]; intros retry_count Hm;
    destruct (verdict_of a b c d (session retry_count)) as [| |r'] eqn:Hv.
  1,2,3: rewrite fetch_exhausted, Hv by lia; simpl; try discriminate.
  2,3: rewrite fetch_retry by (congruence || lia); simpl; apply IH; lia.
  2: rewrite (fetch_usable _ _ _ _ _ _ _ _ Hv); simpl.
  all: intros [= <-]; unfold verdict_of in Hv;
       destruct (session retry_count) as [| |status body]; try discriminate;
       destruct (status =? 429); try discriminate;
       destruct body as [data|]; try discriminate;
       destruct (interpret data a b c d) as [r0|] eqn:Hi; try discriminate;
       injection Hv as ->; exact (interpret_truthy _ _ _ _ _ _ Hi).
Qed.

Lemma truthy_len v n : truthy v = true -> len v = Ok n -> (1 <= n)%nat.
Proof.
  destruct v as [| | |s|l|kv]; simpl; try discriminate.
  - destruct s; simpl; [discriminate|]. intros _ [= <-]. lia.
  - destruct l; [discriminate|]. intros _ [= <-]. simpl. lia.
  - destruct kv; [discriminate|]. intros _ [= <-]. simpl. lia.
Qed.

(** Every Feature [process_trip] returns comes from a dict with [n >= 2]
    route points and carries the interpolated timestamps of those points. *)
Lemma process_trip_feature cfg session row f :
  (process_trip cfg session row).1 = Ok (Some f) ->
  exists n,
    (2 <= n)%nat /\
    len (coordinates (geometry f)) = Ok n /\
    tripId (properties f) = trip_ID row /\
    times (properties f) =
      map (fun i : nat =>
             Qfloor (start_time_local row
                     + (end_time_local row - start_time_local row)
                       * (inject_Z (Z.of_nat i) / inject_Z (Z.of_nat n - 1))))
          (seq 0 n).
Proof.
  unfold process_trip.
  destruct (pickup_location_latitude row) as [lat|]; [|discriminate].
  destruct (pickup_location_longitude row) as [lng|]; [|discriminate].
  destruct (get_osrm_route _ _ _ _ _ _ _) as [[| r | l] evs] eqn:Hfetch;
    cbn [fst]; [discriminate| |destruct (truthy l); discriminate].
  assert (truthy (rd_coordinates r) = true) as Htruthy.
  { eapply fetch_dict_truthy. rewrite Hfetch. reflexivity. }
  destruct (len (rd_coordinates r)) as [n|] eqn:Hlen; [|discriminate].
  cbn [rbind]. pose proof (truthy_len _ _ Htruthy Hlen) as Hn.
  destruct (Nat.eq_dec n 1%nat) as [->|Hne]; [discriminate|].
  rewrite interpolate_ok by exact Hne. cbn [rbind app].
  destruct (as_num (rd_distance r)); [|discriminate].
  destruct (as_num (rd_duration r)); [|discriminate].
  cbn [rbind]. intros [= <-]. cbn.
  exists n. repeat split; [lia|exact Hlen].
Qed.




(** C2.  For a route of exactly one point the interpolator assigns no
    timestamp at all, whatever the start and end time: the first turn of the
    loop divides by [n - 1 = 0] and raises ZeroDivisionError.  So does
    [process_trip] for every trip with a pickup coordinate whose fetch
    returns a dict with a single coordinate: the trip gets no Feature and
    the exception leaves [process_trip]. *)
Theorem single_point_route_raises cfg session row lat lng r evs :
  pickup_location_latitude row = Some lat ->
  pickup_location_longitude row = Some lng ->
  get_osrm_route cfg session lng lat
    (default lng (dropoff_location_longitude row))
    (default lat (dropoff_location_latitude row)) 0 = (PyDict r, evs) ->
  len (rd_coordinates r) = Ok 1%nat ->
  (forall start_time end_time,
     interpolate start_time (end_time - start_time) 1 (seq 0 1) []
       = Raise ZeroDivisionError)
  /\ process_trip cfg session row = (Raise ZeroDivisionError, evs).
Proof.
  intros Hlat Hlng Hfetch Hlen. split; [reflexivity|].
  unfold process_trip. rewrite Hlat, Hlng, Hfetch, Hlen. reflexivity.
Qed.

Lemma single_point_route_raises_witness :
  process_trip default_config (always (Response 200 (Some (payload "Ok" 1))))
    (sample_trip "A" (Some 1%Q) 0 10)
  = (Raise ZeroDivisionError, [Get 1 1 1 3 0]).
Proof.
  apply (single_point_route_raises default_config
           (always (Response 200 (Some (payload "Ok" 1))))
           (sample_trip "A" (Some 1%Q) 0 10) 1%Q 1%Q
           {| rd_coordinates := JArr [JArr [JNum 1; JNum 2]];
              rd_duration := JNum 10; rd_distance := JNum 50;
              rd_average_speed := (50 # 10)%Q |}
           [Get 1 1 1 3 0]); vm_compute; reflexivity.
Defined.




(** ** Chunk Scheduler, Checkpoint Store and Pipeline Driver *)

Section DriverFacts.
Context (cfg : Config) (world : Trip -> nat -> outcome).

Lemma process_chunk_run chunk s :
  process_chunk cfg world chunk s =
    (chunk_result cfg world chunk,
     {| files := files s; log := log s ++ chunk_events cfg world chunk |}).
Proof.
  unfold process_chunk, chunk_result, chunk_events, mbind, M_bind, emit, lift,
    mret, M_ret.
  cbn. rewrite !map_map. cbn.
  assert (forall l : list Trip,
    map (fun x => let '(_, evs) := process_trip cfg (world x) x in
                  map (Fetching (trip_ID x)) evs) l
    = map (fun row => map (Fetching (trip_ID row))
                        (process_trip cfg (world row) row).2) l) as ->.
  { intros l. apply map_ext. intros row.
    destruct (process_trip cfg (world row) row). reflexivity. }
  destruct (gather _); reflexivity.
Qed.

Lemma resume_run df s :
  resume df s = (Ok (restored (files s), work_list (files s) df), s).
Proof.
  unfold resume, restored, work_list, mbind, M_bind, path_exists, json_load,
    mret, M_ret, ids.
  cbn. destruct (files s !! partial_path) as [c|] eqn:Hc.
  - rewrite bool_decide_eq_true_2 by eauto. rewrite Hc. reflexivity.
  - rewrite bool_decide_eq_false_2; [reflexivity|].
    intros [c Hc']. discriminate.
Qed.

Lemma chunk_loop_cons total i chunk chunks features s :
  chunk_loop cfg world total i (chunk :: chunks) features s =
    match chunk_result cfg world chunk with
    | Raise e =>
        (Raise e,
         {| files := files s; log := log s ++ chunk_events cfg world chunk |})
    | Ok chunk_features =>
        let content := {| collection_type := "FeatureCollection";
                          features := Some (features ++ chunk_features) |} in
        chunk_loop cfg world total (S i) chunks (features ++ chunk_features)
          {| files := <[partial_path := content]> (files s);
             log := ((log s ++ chunk_events cfg world chunk)
                       ++ [WriteFile partial_path content])
                    ++ (if (i <? total)%nat then [Pause 2] else []) |}
    end.
Proof.
  cbn [chunk_loop]. unfold mbind at 1, M_bind at 1.
  rewrite process_chunk_run.
  destruct (chunk_result cfg world chunk) as [chunk_features|e]; [|reflexivity].
  unfold mbind, M_bind, json_dump, sleep, emit, mret, M_ret.
  destruct (i <? total)%nat; cbn [files log]; [reflexivity|].
  rewrite app_nil_r. reflexivity.
Qed.

Lemma process_trips_run df s :
  process_trips cfg world df s =
    match range_step (length (work_list (files s) df)) (CHUNK_SIZE cfg) with
    | Raise e => (Raise e, s)
    | Ok starts =>
        let chunks :=
          map (fun i => slice (work_list (files s) df) i (i + CHUNK_SIZE cfg))
              starts in
        chunk_loop cfg world (length chunks) 1 chunks (restored (files s)) s
    end.
Proof.
  unfold process_trips. unfold mbind at 1, M_bind at 1. rewrite resume_run.
  unfold mbind, M_bind, lift.
  destruct (range_step _ _); reflexivity.
Qed.

Lemma main_run df s :
  main cfg world df s =
    match process_trips cfg world df s with
    | (Raise e, s') => (Raise e, s')
    | (Ok features, s') =>
        let content := {| collection_type := "FeatureCollection";
                          features := Some features |} in
        let files' := <[final_path := content]> (files s') in
        let log' := log s' ++ [WriteFile final_path content] in
        match files' !! partial_path with
        | Some _ =>
            (Ok tt, {| files := delete partial_path files';
                       log := log' ++ [RemoveFile partial_path] |})
        | None => (Ok tt, {| files := files'; log := log' |})
        end
    end.
Proof.
  unfold main. unfold mbind at 1, M_bind at 1.
  destruct (process_trips cfg world df s) as [[features|e] s']; [|reflexivity].
  unfold mbind, M_bind, json_dump, path_exists, os_remove, mret, M_ret.
  cbn [files log].
  match goal with
  | |- context [bool_decide (is_Some ?x)] => destruct x as [c|] eqn:Hc
  end.
  - rewrite bool_decide_eq_true_2 by eauto. cbn [files log]. rewrite Hc.
    reflexivity.
  - rewrite bool_decide_eq_false_2; [reflexivity|]. intros [c Hc']. discriminate.
Qed.

Section Invariant.
Context (allowed : string -> Prop) (good : Feature -> Prop).
Context (good_made : forall session row f,
           (process_trip cfg session row).1 = Ok (Some f) -> good f).

Lemma chunk_events_ok chunk :
  Forall (fun row => allowed (trip_ID row)) chunk ->
  Forall (ok_event allowed good) (chunk_events cfg world chunk).
Proof.
  unfold chunk_events. induction 1 as [|row chunk Hrow _ IH]; cbn [map concat].
  - constructor.
  - apply Forall_app. split; [|exact IH].
    induction (process_trip cfg (world row) row).2; constructor; assumption.
Qed.

Lemma gather_good chunk results :
  gather (map (fun row => (process_trip cfg (world row) row).1) chunk)
    = Ok results ->
  Forall good (omap id results).
Proof.
  revert results. induction chunk as [|row chunk IH]; intros results; cbn.
  - intros [= <-]. constructor.
  - destruct (process_trip cfg (world row) row).1 as [made|] eqn:Hrow;
      [|discriminate]. cbn.
    destruct (gather _) as [rest|]; [|discriminate]. cbn.
    intros [= <-]. specialize (IH rest eq_refl).
    destruct made as [f|]; cbn; [|exact IH].
    constructor; [|exact IH]. exact (good_made _ _ _ Hrow).
Qed.

Lemma chunk_result_good chunk fs :
  chunk_result cfg world chunk = Ok fs -> Forall good fs.
Proof.
  unfold chunk_result. destruct (gather _) as [results|] eqn:Hg; [|discriminate].
  cbn. intros [= <-]. exact (gather_good _ _ Hg).
Qed.

Lemma chunk_loop_ok chunks : forall total i features s,
  Forall (Forall (fun row => allowed (trip_ID row))) chunks ->
  Forall good features ->
  Forall (ok_event allowed good) (log s) ->
  Forall (ok_event allowed good)
    (log (chunk_loop cfg world total i chunks features s).2)
  /\ forall fs, (chunk_loop cfg world total i chunks features s).1 = Ok fs ->
       Forall good fs.
Proof.
  induction chunks as [|chunk chunks IH]; intros total i features s Hall Hfs Hlog.
  - cbn. split; [exact Hlog|]. intros fs [= <-]. exact Hfs.
  - rewrite chunk_loop_cons. inversion Hall as [|? ? Hchunk Hrest]; subst.
    pose proof (chunk_events_ok chunk Hchunk) as Hev.
    destruct (chunk_result cfg world chunk) as [chunk_features|e] eqn:Hres.
    + pose proof (chunk_result_good _ _ Hres) as Hnew.
      assert (Forall good (features ++ chunk_features)) as Hall'
        by (apply Forall_app; split; assumption).
      apply IH; [exact Hrest|exact Hall'|]. cbn [log].
      repeat (apply Forall_app; split); try assumption.
      * constructor; [|constructor]. cbn. intros fs [= <-]. exact Hall'.
      * destruct (i <? total)%nat; repeat constructor.
    + cbn. split; [|discriminate]. apply Forall_app. split; assumption.
Qed.

Lemma main_ok df fs :
  Forall good (restored fs) ->
  Forall (fun row => allowed (trip_ID row)) (work_list fs df) ->
  Forall (ok_event allowed good) (log (main cfg world df (fresh fs)).2).
Proof.
  intros Hgood Hwork. rewrite main_run, process_trips_run. cbn [fresh files].
  destruct (range_step _ _) as [starts|e]; [|constructor].
  cbv zeta.
  match goal with
  | |- context [chunk_loop cfg world ?t ?i ?cs ?f ?s] =>
      destruct (chunk_loop_ok cs t i f s) as [Hlog Hres];
        [ | exact Hgood | constructor | ];
        [ | destruct (chunk_loop cfg world t i cs f s) as [[features|e] s'] ]
  end.
  - apply Forall_forall. intros chunk Hin.
    apply list_elem_of_fmap in Hin as (start & -> & _).
    unfold slice. apply Forall_take, Forall_drop. exact Hwork.
  - cbn [fst snd] in *. specialize (Hres features eq_refl).
    assert (Forall (ok_event allowed good)
              (log s' ++ [WriteFile final_path
                            {| collection_type := "FeatureCollection";
                               features := Some features |}])) as Hout.
    { apply Forall_app. split; [exact Hlog|]. constructor; [|constructor].
      cbn. intros ? [= <-]. exact Hres. }
    destruct (_ !! partial_path); cbn [log snd]; [|exact Hout].
    apply Forall_app. split; [exact Hout|]. repeat constructor.
  - exact Hlog.
Qed.

End Invariant.
End DriverFacts.

Lemma process_trip_aligned cfg session row f :
  (process_trip cfg session row).1 = Ok (Some f) -> aligned f.
Proof.
  intros Hf. destruct (process_trip_feature _ _ _ _ Hf) as (n & Hn & Hlen & _ & Htimes).
  unfold aligned. rewrite Htimes, length_map, length_seq. split; [exact Hlen|lia].
Qed.

Lemma restored_ok fs :
  (forall existing, fs !! partial_path = Some existing -> collection_ok existing) ->
  Forall aligned (restored fs).
Proof.
  intros Hfs. unfold restored.
  destruct (fs !! partial_path) as [existing|]; [|constructor].
  specialize (Hfs existing eq_refl). unfold collection_ok in Hfs.
  destruct (features existing) as [feats|]; [|constructor].
  exact (Hfs feats eq_refl).
Qed.

(** C4.  In every FeatureCollection a run of the pipeline writes, as a
    checkpoint or as the output, each Feature has as many times as its
    geometry has coordinates, and at least one; this for a run that starts
    without a checkpoint or from a checkpoint whose Features have the
    property (as those written by an earlier run have). *)
Theorem written_features_aligned cfg world df fs path content feats f :
  (forall existing, fs !! partial_path = Some existing -> collection_ok existing) ->
  WriteFile path content ∈ log (main cfg world df (fresh fs)).2 ->
  features content = Some feats ->
  f ∈ feats ->
  len (coordinates (geometry f)) = Ok (length (times (properties f))) /\
  (1 <= length (times (properties f)))%nat.
Proof.
  intros Hfs Hin Hfeats Hf.
  pose proof (main_ok cfg world (fun _ => True) aligned
                (process_trip_aligned cfg) df fs (restored_ok fs Hfs)) as Hlog.
  rewrite !Forall_forall in Hlog.
  specialize (Hlog (fun _ _ => I) _ Hin).
  cbn in Hlog. specialize (Hlog feats Hfeats).
  rewrite Forall_forall in Hlog. exact (Hlog f Hf).
Qed.

Lemma written_features_aligned_witness :
  exists content feats f,
    log (main chunks_of_two steady_world five_trips (fresh ∅)).2 !! 10%nat
      = Some (WriteFile final_path content)
    /\ features content = Some feats
    /\ feats !! 0%nat = Some f
    /\ tripId (properties f) = "A"
    /\ len (coordinates (geometry f)) = Ok (length (times (properties f)))
    /\ (1 <= length (times (properties f)))%nat.
Proof.
  eexists _, _, _.
  split; [vm_compute; reflexivity|].
  split; [reflexivity|]. split; [reflexivity|]. split; [reflexivity|].
  eapply (written_features_aligned chunks_of_two steady_world five_trips ∅
            final_path).
  - intros existing Hex. rewrite lookup_empty in Hex. discriminate.
  - apply (list_elem_of_lookup_2 _ 10%nat). vm_compute. reflexivity.
  - reflexivity.
  - apply (list_elem_of_lookup_2 _ 0%nat). reflexivity.
Defined.

(** C5.  When a checkpoint exists at startup, every request of the run is
    for a trip of the trip set whose identifier does not appear among the
    Features of the loaded collection: the trips already there are taken off
    the work list before any fetch. *)
Theorem resume_skips_checkpointed cfg world df fs existing trip e :
  fs !! partial_path = Some existing ->
  Fetching trip e ∈ log (main cfg world df (fresh fs)).2 ->
  (trip ∉ ids (default [] (features existing))) /\ (trip ∈ map trip_ID df).
Proof.
  intros Hex Hin.
  pose proof (main_ok cfg world
                (fun id => (id ∉ ids (default [] (features existing)))
                           /\ (id ∈ map trip_ID df))
                (fun _ => True) (fun _ _ _ _ => I) df fs) as Hlog.
  rewrite !Forall_forall in Hlog.
  refine (Hlog (fun _ _ => I) _ _ Hin).
  unfold work_list. rewrite Hex. intros row Hrow.
  apply list_elem_of_filter in Hrow as [Hnot Hrow].
  rewrite elem_of_list_to_set in Hnot. split; [exact Hnot|].
  apply (list_elem_of_fmap_2 trip_ID). exact Hrow.
Qed.

Lemma resume_skips_checkpointed_witness :
  Fetching "C" (Get 1 1 1 3 0)
    ∈ log (main default_config steady_world
             [sample_trip "A" (Some 1%Q) 0 10; sample_trip "B" (Some 1%Q) 0 10;
              sample_trip "C" (Some 1%Q) 0 10]
             (fresh checkpoint_AB)).2
  /\ ("C" ∉ ["A"; "B"]) /\ ("C" ∈ ["A"; "B"; "C"])
  /\ Forall (fun e => match e with
                      | Fetching trip _ => trip = "C"
                      | _ => True
                      end)
        (log (main default_config steady_world
                [sample_trip "A" (Some 1%Q) 0 10; sample_trip "B" (Some 1%Q) 0 10;
                 sample_trip "C" (Some 1%Q) 0 10]
                (fresh checkpoint_AB)).2).
Proof.
  assert (Fetching "C" (Get 1 1 1 3 0)
            ∈ log (main default_config steady_world
                     [sample_trip "A" (Some 1%Q) 0 10;
                      sample_trip "B" (Some 1%Q) 0 10;
                      sample_trip "C" (Some 1%Q) 0 10]
                     (fresh checkpoint_AB)).2) as Hfetched.
  { vm_compute. apply list_elem_of_In. left. reflexivity. }
  split; [exact Hfetched|]. split; [|split].
  - exact (proj1 (resume_skips_checkpointed default_config steady_world _
                    checkpoint_AB _ "C" _ eq_refl Hfetched)).
  - exact (proj2 (resume_skips_checkpointed default_config steady_world _
                    checkpoint_AB _ "C" _ eq_refl Hfetched)).
  - apply Forall_forall. intros [trip e|path content|path|seconds] Hin; try exact I.
    destruct (resume_skips_checkpointed default_config steady_world _
                checkpoint_AB _ trip e eq_refl Hin) as [Hnot Hmem].
    apply list_elem_of_In in Hmem. cbn in Hnot, Hmem.
    destruct Hmem as [<-|[<-|[<-|[]]]]; [| |reflexivity];
      exfalso; apply Hnot; apply list_elem_of_In; cbn; tauto.
Defined.

Lemma filter_chunk_events cfg world chunk :
  List.filter by_driver (chunk_events cfg world chunk) = [].
Proof.
  unfold chunk_events. induction chunk as [|row chunk IH]; [reflexivity|].
  cbn [map concat]. rewrite List.filter_app, IH, app_nil_r.
  induction (process_trip cfg (world row) row).2 as [|e evs IHe];
    [reflexivity|exact IHe].
Qed.

Lemma work_list_untouched fs df :
  (forall existing row, fs !! partial_path = Some existing -> row ∈ df ->
     trip_ID row ∉ ids (default [] (features existing))) ->
  work_list fs df = df.
Proof.
  intros Hnew. unfold work_list.
  destruct (fs !! partial_path) as [existing|]; [|reflexivity].
  specialize (Hnew existing). induction df as [|row df IH]; [reflexivity|].
  rewrite filter_cons_True.
  - f_equal. apply IH. intros r Hex Hr. apply Hnew; [exact Hex|].
    apply elem_of_cons. right. exact Hr.
  - rewrite elem_of_list_to_set. apply Hnew; [reflexivity|].
    apply elem_of_cons. left. reflexivity.
Qed.

(** C7.  With chunk size 2 and five trips to process (none of them already
    in a checkpoint), a run that completes does exactly this, in this order:
    the fetches of the first two trips, a write of the checkpoint holding
    the restored Features followed by those of the first chunk, a pause of
    2 seconds; the fetches of the next two trips, a write of the checkpoint
    now holding those of the second chunk as well, a pause of 2 seconds; the
    fetches of the fifth trip, a third write of the checkpoint holding all
    Features, and no pause; then the write of the output and the removal of
    the checkpoint file, which does not exist at the end.  So each
    checkpoint is written after the fetches of its chunk and before those
    of the next, and there are exactly three such writes. *)
Theorem five_trips_in_chunks_of_two cfg world df fs :
  CHUNK_SIZE cfg = 2%nat ->
  length df = 5%nat ->
  (forall existing row, fs !! partial_path = Some existing -> row ∈ df ->
     trip_ID row ∉ ids (default [] (features existing))) ->
  (main cfg world df (fresh fs)).1 = Ok tt ->
  exists f1 f2 f3,
    chunk_result cfg world (take 2 df) = Ok f1
    /\ chunk_result cfg world (take 2 (drop 2 df)) = Ok f2
    /\ chunk_result cfg world (drop 4 df) = Ok f3
    /\ log (main cfg world df (fresh fs)).2 =
         chunk_events cfg world (take 2 df)
         ++ [WriteFile partial_path (collection_of (restored fs ++ f1)); Pause 2]
         ++ chunk_events cfg world (take 2 (drop 2 df))
         ++ [WriteFile partial_path (collection_of ((restored fs ++ f1) ++ f2));
             Pause 2]
         ++ chunk_events cfg world (drop 4 df)
         ++ [WriteFile partial_path
               (collection_of (((restored fs ++ f1) ++ f2) ++ f3));
             WriteFile final_path
               (collection_of (((restored fs ++ f1) ++ f2) ++ f3));
             RemoveFile partial_path]
    /\ List.filter by_driver (log (main cfg world df (fresh fs)).2) =
         [WriteFile partial_path (collection_of (restored fs ++ f1)); Pause 2;
          WriteFile partial_path (collection_of ((restored fs ++ f1) ++ f2));
          Pause 2;
          WriteFile partial_path
            (collection_of (((restored fs ++ f1) ++ f2) ++ f3));
          WriteFile final_path
            (collection_of (((restored fs ++ f1) ++ f2) ++ f3));
          RemoveFile partial_path]
    /\ files (main cfg world df (fresh fs)).2 !! partial_path = None.
Proof.
  intros Hsize Hlen Hnew.
  rewrite main_run, process_trips_run. cbn [fresh files].
  rewrite (work_list_untouched fs df Hnew), Hsize.
  destruct df as [|t1 [|t2 [|t3 [|t4 [|t5 [|t6 df]]]]]]; try discriminate.
  change (range_step (length [t1; t2; t3; t4; t5]) 2) with (Ok [0; 2; 4]%nat).
  cbn [map slice take drop Nat.add Nat.sub length]. cbv zeta.
  rewrite chunk_loop_cons.
  destruct (chunk_result cfg world [t1; t2]) as [f1|]; [|discriminate].
  cbv zeta. rewrite chunk_loop_cons.
  destruct (chunk_result cfg world [t3; t4]) as [f2|]; [|discriminate].
  cbv zeta. rewrite chunk_loop_cons.
  destruct (chunk_result cfg world [t5]) as [f3|]; [|discriminate].
  cbn [chunk_loop mret M_ret files log Nat.ltb Nat.leb].
  rewrite lookup_insert_ne by discriminate. rewrite lookup_insert_eq.
  intros _. cbn [snd files log].
  exists f1, f2, f3. repeat (split; [reflexivity|]).
  split; [|split].
  - unfold collection_of. rewrite !app_nil_r, <- !app_assoc. reflexivity.
  - rewrite !List.filter_app, !filter_chunk_events. reflexivity.
  - apply lookup_delete_eq.
Qed.

Lemma five_trips_in_chunks_of_two_witness :
  map (fun e => match e with
                | WriteFile path content =>
                    String.append path
                      (String.concat EmptyString
                         (ids (default [] (features content))))
                | RemoveFile path => String.append "remove " path
                | Pause _ => "pause"
                | Fetching trip _ => String.append "fetch " trip
                end)
      (log (main chunks_of_two steady_world five_trips (fresh ∅)).2)
  = ["fetch A"; "fetch B";
     "precomputed_routes_partial.jsonAB"; "pause";
     "fetch C"; "fetch D";
     "precomputed_routes_partial.jsonABCD"; "pause";
     "fetch E";
     "precomputed_routes_partial.jsonABCDE";
     "precomputed_routes.jsonABCDE"; "remove precomputed_routes_partial.json"]
  /\ files (main chunks_of_two steady_world five_trips (fresh ∅)).2
       !! partial_path = None.
Proof.
  destruct (five_trips_in_chunks_of_two chunks_of_two steady_world five_trips ∅)
    as (f1 & f2 & f3 & H1 & H2 & H3 & Hlog & _ & Hgone).
  - reflexivity.
  - reflexivity.
  - intros existing row Hex. rewrite lookup_empty in Hex. discriminate.
  - vm_compute. reflexivity.
  - split; [|exact Hgone]. rewrite Hlog.
    vm_compute in H1. injection H1 as <-.
    vm_compute in H2. injection H2 as <-.
    vm_compute in H3. injection H3 as <-.
    vm_compute. reflexivity.
Defined.

Lemma always_failing_fetch cfg session a b c d :
  (forall k, verdict_of a b c d (session k) = Failed) ->
  forall m k, (k + m = MAX_RETRIES cfg)%nat ->
    get_osrm_route cfg session a b c d k =
      (PyList (direct_line a b c d),
       retries cfg a b c d k m ++ [Get a b c d (MAX_RETRIES cfg)]).
Proof.
  intros Hall. induction m as [|m IH]; intros k Hk.
  - rewrite fetch_exhausted, Hall by lia. simpl. do 3 f_equal. lia.
  - rewrite fetch_retry; [|rewrite Hall; discriminate|lia].
    rewrite (IH (S k)) by lia. reflexivity.
Qed.

(** A trip with a pickup coordinate whose every attempt times out or fails
    in transport makes [process_trip] raise: the bare list returned after
    the last attempt is subscripted with ["coordinates"]. *)
Lemma exhausted_fetch_raises cfg session row lat lng :
  pickup_location_latitude row = Some lat ->
  pickup_location_longitude row = Some lng ->
  (forall k, session k = TimedOut \/ session k = TransportError) ->
  (process_trip cfg session row).1 = Raise TypeError.
Proof.
  intros Hlat Hlng Hall. unfold process_trip. rewrite Hlat, Hlng.
  rewrite (always_failing_fetch cfg session _ _ _ _) with (m := MAX_RETRIES cfg)
    by (lia || (intros k; destruct (Hall k) as [-> | ->]; reflexivity)).
  reflexivity.
Qed.

(** C1.  On the three-trip scenario (trip A without pickup coordinate, trip
    B whose every attempt times out, trip C answered at the first attempt)
    the run does not produce two Features: it ends with a [TypeError], writes
    neither checkpoint nor output, and leaves no file. *)
Theorem timed_out_trip_fails_the_run :
  (main default_config flaky_world three_trips (fresh ∅)).1 = Raise TypeError
  /\ List.filter by_driver
       (log (main default_config flaky_world three_trips (fresh ∅)).2) = []
  /\ files (main default_config flaky_world three_trips (fresh ∅)).2 = ∅
  /\ (process_trip default_config (flaky_world (sample_trip "B" (Some 1%Q) 0 10))
        (sample_trip "B" (Some 1%Q) 0 10))
     = (Raise TypeError,
        [Get 1 1 1 3 0; Sleep 1; Get 1 1 1 3 1; Sleep 2; Get 1 1 1 3 2; Sleep 4;
         Get 1 1 1 3 3; Sleep 8; Get 1 1 1 3 4; Sleep 16; Get 1 1 1 3 5]).
Proof.
  repeat split; vm_compute; reflexivity.
Qed.

(** ** Concurrency Coordinator *)

Section CoordinatorFacts.
Import Coordinator.

Lemma count_insert (p : task -> bool) ts : forall i t t',
  ts !! i = Some t ->
  (length (List.filter p (<[i := t']> ts)) + (if p t then 1 else 0)
   = length (List.filter p ts) + (if p t' then 1 else 0))%nat.
Proof.
  induction ts as [|x ts IH]; intros i t t'; [destruct i; discriminate|].
  destruct i as [|i]; cbn.
  - intros [= ->]. destruct (p t), (p t'); cbn; lia.
  - intros Hi. specialize (IH i t t' Hi).
    destruct (p x); cbn; [f_equal|]; exact IH.
Qed.

Lemma nobody_inside (chunk : list Trip) :
  List.filter holding (map (fun _ => Waiting) chunk) = [].
Proof. induction chunk; [reflexivity|assumption]. Qed.

Lemma fetching_inside ts :
  (length (List.filter fetching ts) <= length (List.filter holding ts))%nat.
Proof.
  induction ts as [|t ts IH]; [reflexivity|].
  destruct t as [|[|e evs]|]; cbn; lia.
Qed.

(** The counter and the tasks inside the block always add up to the bound. *)
Lemma units_conserved cfg world chunk s :
  reachable cfg world chunk s ->
  (value s + in_block s = CONCURRENT_REQUESTS cfg)%nat.
Proof.
  unfold reachable. intros Hreach.
  apply (rtc_ind_r (R := step cfg world chunk)
           (fun s => (value s + in_block s = CONCURRENT_REQUESTS cfg)%nat)
           (init cfg chunk)); [| |exact Hreach].
  - unfold in_block, count, init. cbn. rewrite nobody_inside. cbn. lia.
  - intros s1 s2 _ Hstep IH. unfold in_block, count in *.
    destruct Hstep as [i row v ts Hi _|i e evs v ts Hi|i v ts Hi]; cbn in *.
    + pose proof (count_insert holding ts i Waiting
                    (Holding (process_trip cfg (world row) row).2) Hi) as Hc.
      cbn in Hc. lia.
    + pose proof (count_insert holding ts i _ (Holding evs) Hi) as Hc.
      cbn in Hc. lia.
    + pose proof (count_insert holding ts i _ Released Hi) as Hc.
      cbn in Hc. lia.
Qed.

End CoordinatorFacts.

(** C8.  Whatever the bound [N = CONCURRENT_REQUESTS] and the chunk, in every
    state the tasks of a chunk can reach, at most [N] fetches are under way
    (indeed at most [N] tasks are inside the semaphore's block), and while
    [N] tasks are inside, no step lets a waiting task in: it stays waiting
    until a task inside leaves. *)
Theorem at_most_N_outstanding cfg world chunk s :
  Coordinator.reachable cfg world chunk s ->
  (Coordinator.outstanding s <= CONCURRENT_REQUESTS cfg)%nat
  /\ (Coordinator.in_block s <= CONCURRENT_REQUESTS cfg)%nat
  /\ (Coordinator.in_block s = CONCURRENT_REQUESTS cfg ->
      forall s' i,
        Coordinator.step cfg world chunk s s' ->
        Coordinator.tasks s !! i = Some Coordinator.Waiting ->
        Coordinator.tasks s' !! i = Some Coordinator.Waiting).
Proof.
  intros Hreach. pose proof (units_conserved _ _ _ _ Hreach) as Hunits.
  assert (Coordinator.outstanding s <= Coordinator.in_block s)%nat as Hsub
    by apply fetching_inside.
  split; [lia|]. split; [lia|].
  intros Hfull s' i Hstep Hi.
  destruct Hstep as [j row v ts Hj _|j e evs v ts Hj|j v ts Hj]; cbn in *.
  - lia.
  - rewrite list_lookup_insert_ne; [exact Hi|]. intros ->. congruence.
  - rewrite list_lookup_insert_ne; [exact Hi|]. intros ->. congruence.
Qed.

Lemma at_most_N_outstanding_witness :
  (Coordinator.outstanding two_inside <= 2)%nat
  /\ (Coordinator.in_block two_inside <= 2)%nat.
Proof.
  destruct (at_most_N_outstanding two_slots steady_world five_trips two_inside)
    as (Hout & Hin & _).
  - unfold Coordinator.reachable.
    eapply rtc_l.
    { exact (Coordinator.acquire two_slots steady_world five_trips 0%nat
               (sample_trip "A" (Some 1%Q) 0 10) 1%nat
               (map (fun _ => Coordinator.Waiting) five_trips)
               eq_refl eq_refl). }
    eapply rtc_l.
    { apply (Coordinator.acquire two_slots steady_world five_trips 1%nat
               (sample_trip "B" (Some 1%Q) 0 10) 0%nat); reflexivity. }
    match goal with
    | |- rtc _ ?x _ =>
        assert (x = two_inside) as -> by (vm_compute; reflexivity)
    end.
    apply rtc_refl.
  - split; [exact Hout|exact Hin].
Defined.

(** * Further properties *)

(** ** Route Fetch Client: effort, recovery, exhaustion *)

Lemma requests_retries cfg a b c d from n :
  requests (retries cfg a b c d from n ++ [Get a b c d (from + n)%nat]) = S n.
Proof.
  unfold requests, retries. revert from.
  induction n as [|n IH]; intros from; [reflexivity|].
  cbn [seq flat_map app List.filter length]. f_equal.
  replace (from + S n)%nat with (S from + n)%nat by lia. apply IH.
Qed.

Lemma slept_retries cfg a b c d from n tail :
  slept tail = 0 ->
  0 <= MAX_WAIT cfg ->
  0 <= INITIAL_WAIT cfg ->
  0 <= slept (retries cfg a b c d from n ++ tail)
  /\ slept (retries cfg a b c d from n ++ tail) <= Z.of_nat n * MAX_WAIT cfg
  /\ slept (retries cfg a b c d from n ++ tail)
     <= INITIAL_WAIT cfg * (2 ^ Z.of_nat (from + n) - 2 ^ Z.of_nat from).
Proof.
  intros Htail Hmax Hinit. unfold retries. revert from.
  induction n as [|n IH]; intros from.
  - cbn [seq flat_map app]. rewrite Htail, Nat.add_0_r. lia.
  - cbn [seq flat_map app slept].
    destruct (IH (S from)) as (H0 & H1 & H2).
    replace (from + S n)%nat with (S from + n)%nat by lia.
    assert (0 < 2 ^ Z.of_nat from) by (apply Z.pow_pos_nonneg; lia).
    assert (2 ^ Z.of_nat (S from) = 2 * 2 ^ Z.of_nat from) as Hpow
      by (rewrite Nat2Z.inj_succ, Z.pow_succ_r by lia; reflexivity).
    rewrite Hpow in H2. nia.
Qed.

(** X1.  A fetch started at attempt 0 issues at most MAX_RETRIES + 1
    requests, and (for non-negative INITIAL_WAIT and MAX_WAIT) the time it
    sleeps between them is at most MAX_RETRIES * MAX_WAIT and at most
    INITIAL_WAIT * (2^MAX_RETRIES - 1) seconds. *)
Theorem fetch_effort_bounded cfg session a b c d :
  0 <= INITIAL_WAIT cfg ->
  0 <= MAX_WAIT cfg ->
  (1 <= requests (get_osrm_route cfg session a b c d 0).2 <= MAX_RETRIES cfg + 1)%nat
  /\ 0 <= slept (get_osrm_route cfg session a b c d 0).2
  /\ slept (get_osrm_route cfg session a b c d 0).2
     <= Z.of_nat (MAX_RETRIES cfg) * MAX_WAIT cfg
  /\ slept (get_osrm_route cfg session a b c d 0).2
     <= INITIAL_WAIT cfg * (2 ^ Z.of_nat (MAX_RETRIES cfg) - 1).
Proof.
  intros Hinit Hmax.
  destruct (fetch_trace cfg session a b c d 0) as (n & Hn & ->).
  rewrite requests_retries.
  destruct (slept_retries cfg a b c d 0 n [Get a b c d (0 + n)%nat] eq_refl Hmax Hinit)
    as (H0 & H1 & H2).
  cbn [Nat.add] in *. change (2 ^ Z.of_nat 0) with 1 in H2.
  assert (2 ^ Z.of_nat n <= 2 ^ Z.of_nat (MAX_RETRIES cfg))
    by (apply Z.pow_le_mono_r; lia).
  repeat split; try lia; nia.
Qed.

Lemma fetch_effort_bounded_witness :
  (1 <= requests (get_osrm_route default_config (always TimedOut) 1 2 3 4 0).2
     <= 5 + 1)%nat
  /\ 0 <= slept (get_osrm_route default_config (always TimedOut) 1 2 3 4 0).2
  /\ slept (get_osrm_route default_config (always TimedOut) 1 2 3 4 0).2 <= 5 * 120
  /\ slept (get_osrm_route default_config (always TimedOut) 1 2 3 4 0).2
     <= 1 * (2 ^ 5 - 1).
Proof.
  apply (fetch_effort_bounded default_config (always TimedOut) 1 2 3 4);
    cbn; lia.
Defined.

Lemma failing_run cfg session a b c d m : forall from,
  (from + m <= MAX_RETRIES cfg)%nat ->
  (forall j r, (from <= j < from + m)%nat ->
     verdict_of a b c d (session j) <> Usable r) ->
  get_osrm_route cfg session a b c d from =
    ((get_osrm_route cfg session a b c d (from + m)).1,
     retries cfg a b c d from m
       ++ (get_osrm_route cfg session a b c d (from + m)).2).
Proof.
  induction m as [|m IH]; intros from Hle Hfail.
  - rewrite Nat.add_0_r. destruct (get_osrm_route _ _ _ _ _ _ _). reflexivity.
  - rewrite fetch_retry; [|intros r; apply Hfail; lia|lia].
    rewrite (IH (S from)); [|lia|intros j r Hj; apply Hfail; lia].
    replace (S from + m)%nat with (from + S m)%nat by lia. reflexivity.
Qed.

Lemma not_usable_cases a b c d o :
  o = TimedOut \/ o = TransportError \/ rate_limited o = true ->
  forall r, verdict_of a b c d o <> Usable r.
Proof.
  intros [-> | [-> | Hrl]] r; try discriminate.
  destruct o as [| |status body]; try discriminate.
  cbn in *. rewrite Hrl. discriminate.
Qed.

Lemma exhausted_verdict a b c d o :
  (forall r, verdict_of a b c d o <> Usable r) ->
  exhausted a b c d (verdict_of a b c d o) =
    if rate_limited o then PyNone else PyList (direct_line a b c d).
Proof.
  intros Hnot. destruct o as [| |status body]; try reflexivity.
  cbn in *. destruct (status =? 429); [reflexivity|].
  destruct body as [data|]; [|reflexivity].
  destruct (interpret data a b c d) as [r|]; [|reflexivity].
  exfalso. exact (Hnot r eq_refl).
Qed.

(** X2.  Transient failures followed by a usable answer: when attempts
    0 .. k-1 time out, fail in transport or are rate limited, and attempt
    [k <= MAX_RETRIES] is answered with a payload that [interpret] turns into
    a dict, the fetch returns that dict after [k] backoff sleeps and [k + 1]
    requests. *)
Theorem fetch_recovers cfg session a b c d k status data r :
  (k <= MAX_RETRIES cfg)%nat ->
  (forall j, (j < k)%nat ->
     session j = TimedOut \/ session j = TransportError
     \/ rate_limited (session j) = true) ->
  session k = Response status (Some data) ->
  status <> 429 ->
  interpret data a b c d = Ok r ->
  get_osrm_route cfg session a b c d 0 =
    (PyDict r, retries cfg a b c d 0 k ++ [Get a b c d k]).
Proof.
  intros Hk Hfail Hresp Hstatus Hint.
  rewrite (failing_run cfg session a b c d k 0%nat) by
    (lia || (intros j r' Hj; apply not_usable_cases, Hfail; lia)).
  cbn [Nat.add]. rewrite (fetch_usable cfg session a b c d k r); [reflexivity|].
  rewrite Hresp. cbn. destruct (Z.eqb_spec status 429); [contradiction|].
  rewrite Hint. reflexivity.
Qed.

Lemma fetch_recovers_witness :
  get_osrm_route default_config
    (fun k => match k with
              | 0%nat => TimedOut
              | 1%nat => Response 429 None
              | _ => Response 200 (Some (payload "Ok" 2))
              end) 1 2 3 4 0
  = (PyDict {| rd_coordinates := JArr [JArr [JNum 1; JNum 2]; JArr [JNum 1; JNum 2]];
               rd_duration := JNum 10; rd_distance := JNum 50;
               rd_average_speed := (50 / 10)%Q |},
     [Get 1 2 3 4 0; Sleep 1; Get 1 2 3 4 1; Sleep 2; Get 1 2 3 4 2]).
Proof.
  apply (fetch_recovers default_config _ 1 2 3 4 2%nat 200 (payload "Ok" 2)).
  - cbn. lia.
  - intros [|[|j]] Hj; [left; reflexivity|right; right; reflexivity|lia].
  - reflexivity.
  - lia.
  - reflexivity.
Defined.

Lemma no_dict_from cfg session a b c d m : forall k,
  (k + m = MAX_RETRIES cfg)%nat ->
  (forall r, (get_osrm_route cfg session a b c d k).1 <> PyDict r) ->
  get_osrm_route cfg session a b c d k =
    (if rate_limited (session (MAX_RETRIES cfg)) then PyNone
     else PyList (direct_line a b c d),
     retries cfg a b c d k m ++ [Get a b c d (MAX_RETRIES cfg)]).
Proof.
  induction m as [|m IH]; intros k Hk Hnot.
  - assert (forall r, verdict_of a b c d (session k) <> Usable r) as Hv.
    { intros r Hv. apply (Hnot r). rewrite (fetch_usable _ _ _ _ _ _ _ _ Hv).
      reflexivity. }
    rewrite fetch_exhausted by lia. rewrite (exhausted_verdict _ _ _ _ _ Hv).
    replace (MAX_RETRIES cfg) with k by lia. reflexivity.
  - assert (forall r, verdict_of a b c d (session k) <> Usable r) as Hv.
    { intros r Hv. apply (Hnot r). rewrite (fetch_usable _ _ _ _ _ _ _ _ Hv).
      reflexivity. }
    rewrite fetch_retry in Hnot |- * by (exact Hv || lia).
    rewrite (IH (S k)) by (lia || exact Hnot). reflexivity.
Qed.

(** X3.  A fetch that does not return a dict has used every attempt
    (MAX_RETRIES sleeps, MAX_RETRIES + 1 requests), and what it returns is
    decided by the last attempt alone: [None] when that one was answered with
    status 429, the bare two-point list otherwise, whatever the earlier
    attempts failed with. *)
Theorem exhaustion_follows_last_attempt cfg session a b c d :
  (forall r, (get_osrm_route cfg session a b c d 0).1 <> PyDict r) ->
  get_osrm_route cfg session a b c d 0 =
    (if rate_limited (session (MAX_RETRIES cfg)) then PyNone
     else PyList (JArr [JArr [JNum a; JNum b]; JArr [JNum c; JNum d]]),
     retries cfg a b c d 0 (MAX_RETRIES cfg) ++ [Get a b c d (MAX_RETRIES cfg)]).
Proof.
  intros Hnot. apply (no_dict_from cfg session a b c d (MAX_RETRIES cfg) 0%nat);
    [lia|exact Hnot].
Qed.

Lemma exhaustion_follows_last_attempt_witness :
  get_osrm_route default_config
    (fun k => if (k <? 5)%nat then Response 429 None else TimedOut) 1 2 3 4 0
  = (PyList (JArr [JArr [JNum 1; JNum 2]; JArr [JNum 3; JNum 4]]),
     [Get 1 2 3 4 0; Sleep 1; Get 1 2 3 4 1; Sleep 2; Get 1 2 3 4 2; Sleep 4;
      Get 1 2 3 4 3; Sleep 8; Get 1 2 3 4 4; Sleep 16; Get 1 2 3 4 5]).
Proof.
  apply (exhaustion_follows_last_attempt default_config
           (fun k => if (k <? 5)%nat then Response 429 None else TimedOut) 1 2 3 4).
  intros r. vm_compute. discriminate.
Defined.

(** X4.  An answer that cannot be read is handled like a transport error,
    not like a missing route: when the status is not 429 and the body is not
    JSON, or the payload has no ["code"] field to read, or says ["Ok"] but
    has no ["routes"] field, the client sleeps and retries while
    [retry_count < MAX_RETRIES], and returns the bare two-point list once the
    attempts are used up. *)
Theorem unreadable_answer_is_retried cfg session a b c d retry_count status body :
  session retry_count = Response status body ->
  status <> 429 ->
  (body = None
   \/ exists data e,
        body = Some data /\
        (getitem data "code" = Raise e
         \/ (getitem data "code" = Ok (JStr "Ok")
             /\ getitem data "routes" = Raise e))) ->
  get_osrm_route cfg session a b c d retry_count =
    if (retry_count <? MAX_RETRIES cfg)%nat then
      ((get_osrm_route cfg session a b c d (S retry_count)).1,
       Get a b c d retry_count :: Sleep (wait_time cfg retry_count)
         :: (get_osrm_route cfg session a b c d (S retry_count)).2)
    else
      (PyList (JArr [JArr [JNum a; JNum b]; JArr [JNum c; JNum d]]),
       [Get a b c d retry_count]).
Proof.
  intros Hresp Hstatus Hbad.
  assert (verdict_of a b c d (session retry_count) = Failed) as Hv.
  { rewrite Hresp. cbn. destruct (Z.eqb_spec status 429); [contradiction|].
    destruct Hbad as [-> | (data & e & -> & Hdata)]; [reflexivity|].
    unfold interpret.
    destruct Hdata as [Hcode | [Hcode Hroutes]]; rewrite Hcode; cbn;
      [reflexivity|]. rewrite Hroutes. reflexivity. }
  destruct (Nat.ltb_spec retry_count (MAX_RETRIES cfg)) as [Hlt|Hge].
  - apply fetch_retry; [rewrite Hv; discriminate|exact Hlt].
  - rewrite fetch_exhausted, Hv by exact Hge. reflexivity.
Qed.

Lemma unreadable_answer_is_retried_witness :
  get_osrm_route default_config
    (always (Response 200 (Some (JObj [("message", JStr "busy")])))) 1 2 3 4 5
  = (PyList (JArr [JArr [JNum 1; JNum 2]; JArr [JNum 3; JNum 4]]),
     [Get 1 2 3 4 5]).
Proof.
  apply (unreadable_answer_is_retried default_config
           (always (Response 200 (Some (JObj [("message", JStr "busy")]))))
           1 2 3 4 5%nat 200 (Some (JObj [("message", JStr "busy")]))).
  - reflexivity.
  - lia.
  - right. exists (JObj [("message", JStr "busy")]), KeyError.
    split; [reflexivity|]. left. reflexivity.
Defined.

(** X5.  A duration of zero or below never divides.  An answer with code
    ["Ok"] whose first route has non-empty coordinates, a distance entry of
    any kind and a numeric duration that is not positive ends the fetch at
    that attempt, with the route's own coordinates, duration and distance
    and the average speed 0: the quotient of line 42 is not evaluated, so
    neither the distance nor a zero duration can make it raise, and nothing
    is retried. *)
Theorem zero_duration_never_divides cfg session a b c d retry_count status data
    route rest g cs dur dist :
  session retry_count = Response status (Some data) ->
  status <> 429 ->
  getitem data "code" = Ok (JStr "Ok") ->
  getitem data "routes" = Ok (JArr (route :: rest)) ->
  getitem route "geometry" = Ok g ->
  getitem g "coordinates" = Ok cs ->
  truthy cs = true ->
  getitem route "duration" = Ok (JNum dur) ->
  (dur <= 0)%Q ->
  getitem route "distance" = Ok dist ->
  get_osrm_route cfg session a b c d retry_count =
    (PyDict {| rd_coordinates := cs;
               rd_duration := JNum dur;
               rd_distance := dist;
               rd_average_speed := 0 |},
     [Get a b c d retry_count]).
Proof.
  intros Hresp Hstatus Hcode Hroutes Hg Hcs Htruthy Hdur Hle Hdist.
  apply fetch_usable. rewrite Hresp. cbn.
  destruct (Z.eqb_spec status 429); [contradiction|].
  unfold interpret. rewrite Hcode, Hroutes. cbn. rewrite Hg. cbn.
  rewrite Hcs. cbn. rewrite Htruthy, Hdur, Hdist. cbn.
  destruct (Qlt_le_dec 0 dur) as [Hpos|_]; [lra|reflexivity].
Qed.

Lemma zero_duration_never_divides_witness :
  get_osrm_route default_config
    (always (Response 200 (Some
       (JObj [("code", JStr "Ok");
              ("routes",
               JArr [JObj [("geometry", JObj [("coordinates", JArr [JNull; JNull])]);
                           ("duration", JNum 0);
                           ("distance", JStr "far")]])]))))
    1 2 3 4 0
  = (PyDict {| rd_coordinates := JArr [JNull; JNull];
               rd_duration := JNum 0; rd_distance := JStr "far";
               rd_average_speed := 0 |},
     [Get 1 2 3 4 0]).
Proof.
  apply (zero_duration_never_divides default_config _ 1 2 3 4 0%nat 200
           (JObj [("code", JStr "Ok");
                  ("routes",
                   JArr [JObj [("geometry",
                                JObj [("coordinates", JArr [JNull; JNull])]);
                               ("duration", JNum 0);
                               ("distance", JStr "far")]])])
           (JObj [("geometry", JObj [("coordinates", JArr [JNull; JNull])]);
                  ("duration", JNum 0); ("distance", JStr "far")])
           [] (JObj [("coordinates", JArr [JNull; JNull])])
           (JArr [JNull; JNull]) 0 (JStr "far"));
    try reflexivity.
  - lia.
  - discriminate.
Defined.

(** ** What a trip's request and Feature look like *)




Lemma fetch_events_shape cfg session a b c d e :
  e ∈ (get_osrm_route cfg session a b c d 0).2 ->
  (exists k, (k < MAX_RETRIES cfg)%nat /\ e = Sleep (wait_time cfg k))
  \/ (exists k, (k <= MAX_RETRIES cfg)%nat /\ e = Get a b c d k).
Proof.
  destruct (fetch_trace cfg session a b c d 0) as (n & Hn & ->).
  rewrite Nat.max_0_l in Hn. cbn [Nat.add] in *.
  intros He. apply list_elem_of_In, in_app_or in He.
  destruct He as [He | [<- | []]]; [|right; exists n; split; [lia|reflexivity]].
  unfold retries in He. apply in_flat_map in He as (k & Hk & He).
  apply in_seq in Hk. destruct He as [<- | [<- | []]].
  - right. exists k. split; [lia|reflexivity].
  - left. exists k. split; [lia|reflexivity].
Qed.

Lemma work_list_subset fs df row : row ∈ work_list fs df -> row ∈ df.
Proof.
  unfold work_list. destruct (fs !! partial_path); [|exact id].
  intros H. apply list_elem_of_filter in H. exact (proj2 H).
Qed.

Section LogFacts.
Context (cfg : Config) (world : Trip -> nat -> outcome) (P : event -> Prop).
Context (write_ok : forall path content, P (WriteFile path content)).
Context (pause_ok : forall seconds, P (Pause seconds)).
Context (remove_ok : forall path, P (RemoveFile path)).

Lemma chunk_events_forall chunk :
  Forall (fun row => Forall P (map (Fetching (trip_ID row))
                                 (process_trip cfg (world row) row).2)) chunk ->
  Forall P (chunk_events cfg world chunk).
Proof.
  unfold chunk_events. induction 1 as [|row chunk Hrow _ IH]; cbn [map concat].
  - constructor.
  - apply Forall_app. split; assumption.
Qed.

Lemma chunk_loop_log_forall chunks : forall total i features s,
  Forall (fun chunk => Forall P (chunk_events cfg world chunk)) chunks ->
  Forall P (log s) ->
  Forall P (log (chunk_loop cfg world total i chunks features s).2).
Proof.
  induction chunks as [|chunk chunks IH]; intros total i features s Hall Hlog.
  - exact Hlog.
  - rewrite chunk_loop_cons. inversion Hall as [|? ? Hchunk Hrest]; subst.
    destruct (chunk_result cfg world chunk) as [chunk_features|e].
    + apply IH; [exact Hrest|]. cbn [log].
      repeat (apply Forall_app; split); try assumption.
      * constructor; [apply write_ok|constructor].
      * destruct (i <? total)%nat; constructor; [apply pause_ok|constructor].
    + cbn. apply Forall_app. split; assumption.
Qed.

Lemma main_log_forall df fs :
  (forall row, row ∈ work_list fs df ->
     Forall P (map (Fetching (trip_ID row)) (process_trip cfg (world row) row).2)) ->
  Forall P (log (main cfg world df (fresh fs)).2).
Proof.
  intros Hrows. rewrite main_run, process_trips_run. cbn [fresh files].
  destruct (range_step _ _) as [starts|e]; [|constructor].
  cbv zeta.
  match goal with
  | |- context [chunk_loop cfg world ?t ?i ?cs ?f ?s] =>
      assert (Forall P (log (chunk_loop cfg world t i cs f s).2)) as Hlog;
        [apply chunk_loop_log_forall; [|constructor]
        |destruct (chunk_loop cfg world t i cs f s) as [[features|e] s']]
  end.
  - apply Forall_forall. intros chunk Hin.
    apply list_elem_of_fmap in Hin as (start & -> & _).
    apply chunk_events_forall. unfold slice.
    apply Forall_take, Forall_drop, Forall_forall. exact Hrows.
  - cbn [snd] in Hlog.
    destruct (_ !! partial_path); cbn [log snd];
      repeat (apply Forall_app; split); try assumption;
      constructor; (apply write_ok || apply remove_ok || constructor).
  - exact Hlog.
Qed.

End LogFacts.

(** X7.  Every request or backoff sleep of a run belongs to a row of the
    trip table that has both pickup coordinates: a request goes from that
    row's pickup to its dropoff (with the pickup's own longitude or latitude
    where the dropoff's is missing) at an attempt number up to MAX_RETRIES,
    and a sleep is the backoff wait of an attempt below MAX_RETRIES.  So no
    request is made for a row without pickup coordinate. *)
Theorem requests_are_for_table_rows cfg world df fs trip fe :
  Fetching trip fe ∈ log (main cfg world df (fresh fs)).2 ->
  exists row lat lng,
    row ∈ df /\ trip_ID row = trip
    /\ pickup_location_latitude row = Some lat
    /\ pickup_location_longitude row = Some lng
    /\ ((exists k, (k < MAX_RETRIES cfg)%nat /\ fe = Sleep (wait_time cfg k))
        \/ (exists k, (k <= MAX_RETRIES cfg)%nat /\
              fe = Get lng lat (default lng (dropoff_location_longitude row))
                       (default lat (dropoff_location_latitude row)) k)).
Proof.
  intros Hin.
  pose proof (main_log_forall cfg world
    (fun e => match e with
              | Fetching trip fe =>
                  exists row lat lng,
                    row ∈ df /\ trip_ID row = trip
                    /\ pickup_location_latitude row = Some lat
                    /\ pickup_location_longitude row = Some lng
                    /\ ((exists k, (k < MAX_RETRIES cfg)%nat
                                   /\ fe = Sleep (wait_time cfg k))
                        \/ (exists k, (k <= MAX_RETRIES cfg)%nat /\
                              fe = Get lng lat
                                     (default lng (dropoff_location_longitude row))
                                     (default lat (dropoff_location_latitude row)) k))
              | _ => True
              end)
    (fun _ _ => I) (fun _ => I) (fun _ => I) df fs) as Hlog.
  rewrite Forall_forall in Hlog. refine (Hlog _ _ Hin). clear Hlog Hin.
  intros row Hrow. apply work_list_subset in Hrow.
  apply Forall_forall. intros e He.
  apply list_elem_of_fmap in He as (fe' & -> & Hfe).
  unfold process_trip in Hfe.
  destruct (pickup_location_latitude row) as [lat|] eqn:Hlat;
    [|apply elem_of_nil in Hfe; contradiction].
  destruct (pickup_location_longitude row) as [lng|] eqn:Hlng;
    [|apply elem_of_nil in Hfe; contradiction].
  exists row, lat, lng. repeat (split; [assumption || reflexivity|]).
  destruct (get_osrm_route _ _ _ _ _ _ _) as [r evs] eqn:Hfetch.
  cbn [snd] in Hfe. apply (fetch_events_shape cfg (world row)).
  rewrite Hfetch. exact Hfe.
Qed.

Lemma requests_are_for_table_rows_witness :
  exists row lat lng,
    row ∈ [sample_trip "A" None 0 10; sample_trip "C" (Some 1%Q) 0 10]
    /\ trip_ID row = "C"
    /\ pickup_location_latitude row = Some lat
    /\ pickup_location_longitude row = Some lng
    /\ ((exists k, (k < 5)%nat /\ Get 1 1 1 3 0 = Sleep (wait_time default_config k))
        \/ (exists k, (k <= 5)%nat /\
              Get 1 1 1 3 0 =
                Get lng lat (default lng (dropoff_location_longitude row))
                    (default lat (dropoff_location_latitude row)) k)).
Proof.
  apply (requests_are_for_table_rows default_config steady_world
           [sample_trip "A" None 0 10; sample_trip "C" (Some 1%Q) 0 10] ∅
           "C" (Get 1 1 1 3 0)).
  vm_compute. apply list_elem_of_In. left. reflexivity.
Defined.

(** ** Chunk Scheduler: how the work list is cut *)

Lemma slice_width {A} (l : list A) i c : slice l i (i + c) = take c (drop i l).
Proof. unfold slice. f_equal. lia. Qed.

Lemma windows_concat {A} c m : forall l : list A,
  (length l <= m * c)%nat ->
  concat (map (fun i => slice l i (i + c)) (map (fun k => (k * c)%nat) (seq 0 m)))
    = l.
Proof.
  induction m as [|m IH]; intros l Hlen.
  - destruct l; [reflexivity|cbn in Hlen; lia].
  - cbn [seq map concat]. rewrite slice_width. cbn [Nat.mul drop].
    transitivity (take c l ++ drop c l); [|apply take_drop]. f_equal.
    etransitivity; [|apply (IH (drop c l)); rewrite length_drop; lia].
    rewrite <- seq_shift, !map_map. f_equal. apply map_ext. intros k.
    rewrite !slice_width, drop_drop. reflexivity.
Qed.

Lemma windows_sizes {A} (l : list A) c m :
  (0 < c)%nat -> (m * c < length l + c)%nat ->
  Forall (fun chunk : list A => (1 <= length chunk <= c)%nat)
    (map (fun i => slice l i (i + c)) (map (fun k => (k * c)%nat) (seq 0 m))).
Proof.
  intros Hc Hm. rewrite map_map. apply Forall_forall. intros chunk Hin.
  apply list_elem_of_fmap in Hin as (k & -> & Hk).
  apply list_elem_of_In, in_seq in Hk.
  rewrite slice_width, length_take, length_drop. nia.
Qed.

Lemma ceiling_bounds n c :
  (0 < c)%nat ->
  (n <= (n + c - 1) / c * c /\ (n + c - 1) / c * c < n + c)%nat.
Proof.
  intros Hc. pose proof (Nat.div_mod_eq (n + c - 1) c) as Hdiv.
  pose proof (Nat.mod_upper_bound (n + c - 1) c) as Hmod. nia.
Qed.

(** X8.  Cutting a list with [range(0, len, size)] and [l[i:i + size]], for a
    positive size, loses and repeats nothing: the chunks put end to end are
    the list, there are ceil(len / size) of them, none is empty and none is
    longer than the size. *)
Theorem chunks_partition_the_list {A} (l : list A) size starts :
  range_step (length l) size = Ok starts ->
  concat (map (fun i => slice l i (i + size)) starts) = l
  /\ length (map (fun i => slice l i (i + size)) starts)
     = ((length l + size - 1) / size)%nat
  /\ Forall (fun chunk : list A => (1 <= length chunk <= size)%nat)
       (map (fun i => slice l i (i + size)) starts).
Proof.
  unfold range_step. destruct (Nat.eqb_spec size 0) as [|Hsize]; [discriminate|].
  intros [= <-].
  destruct (ceiling_bounds (length l) size) as [Hlow Hhigh]; [lia|].
  split; [|split].
  - apply windows_concat. exact Hlow.
  - rewrite !length_map, length_seq. reflexivity.
  - apply windows_sizes; [lia|exact Hhigh].
Qed.

Lemma chunks_partition_the_list_witness :
  concat (map (fun i => slice five_trips i (i + 2)) [0; 2; 4]%nat) = five_trips
  /\ length (map (fun i => slice five_trips i (i + 2)) [0; 2; 4]%nat)
     = ((length five_trips + 2 - 1) / 2)%nat
  /\ Forall (fun chunk : list Trip => (1 <= length chunk <= 2)%nat)
       (map (fun i => slice five_trips i (i + 2)) [0; 2; 4]%nat).
Proof.
  apply (chunks_partition_the_list five_trips 2 [0; 2; 4]%nat). reflexivity.
Defined.

(** ** Chunk Scheduler and Pipeline Driver: what a run leaves behind *)

Lemma gather_app {A} (t1 t2 : list (result A)) :
  gather (t1 ++ t2) =
    rbind (gather t1) (fun a => rbind (gather t2) (fun b => Ok (a ++ b))).
Proof.
  induction t1 as [|t t1 IH]; cbn.
  - destruct (gather t2); reflexivity.
  - destruct t as [a|e]; cbn; [|reflexivity]. rewrite IH.
    destruct (gather t1); cbn; [|reflexivity].
    destruct (gather t2); reflexivity.
Qed.

Lemma chunk_result_app cfg world l1 l2 :
  chunk_result cfg world (l1 ++ l2) =
    rbind (chunk_result cfg world l1) (fun a =>
    rbind (chunk_result cfg world l2) (fun b => Ok (a ++ b))).
Proof.
  unfold chunk_result. rewrite map_app, gather_app.
  destruct (gather _) as [a|]; cbn; [|reflexivity].
  destruct (gather _) as [b|]; cbn; [|reflexivity].
  rewrite omap_app. reflexivity.
Qed.

Lemma chunk_loop_success cfg world chunks : forall total i feats s new,
  chunk_result cfg world (concat chunks) = Ok new ->
  (chunk_loop cfg world total i chunks feats s).1 = Ok (feats ++ new)
  /\ files (chunk_loop cfg world total i chunks feats s).2 =
       match chunks with
       | [] => files s
       | _ => <[partial_path := collection_of (feats ++ new)]> (files s)
       end.
Proof.
  induction chunks as [|chunk chunks IH]; intros total i feats s new Hres.
  - cbn in Hres. injection Hres as <-. cbn. rewrite app_nil_r. split; reflexivity.
  - cbn [concat] in Hres. rewrite chunk_result_app in Hres.
    rewrite chunk_loop_cons.
    destruct (chunk_result cfg world chunk) as [a|]; [|discriminate].
    cbn [rbind] in Hres.
    destruct (chunk_result cfg world (concat chunks)) as [b|] eqn:Hrest;
      [|discriminate].
    injection Hres as <-. cbv zeta.
    match goal with
    | |- context [chunk_loop cfg world total (S i) chunks _ ?s1] =>
        destruct (IH total (S i) (feats ++ a) s1 b eq_refl) as [Hr Hf]
    end.
    rewrite Hr, Hf, <- app_assoc. split; [reflexivity|].
    cbn [files]. destruct chunks as [|c cs].
    + cbn in Hrest. injection Hrest as <-. rewrite app_nil_r. reflexivity.
    + unfold collection_of. rewrite insert_insert_eq. reflexivity.
Qed.

Lemma chunk_loop_failure cfg world chunks : forall total i feats s e,
  chunk_result cfg world (concat chunks) = Raise e ->
  (chunk_loop cfg world total i chunks feats s).1 = Raise e.
Proof.
  induction chunks as [|chunk chunks IH]; intros total i feats s e Hres.
  - discriminate.
  - cbn [concat] in Hres. rewrite chunk_result_app in Hres.
    rewrite chunk_loop_cons.
    destruct (chunk_result cfg world chunk) as [a|e']; cbn [rbind] in Hres.
    + destruct (chunk_result cfg world (concat chunks)) as [b|e'] eqn:Hrest;
        [discriminate|]. injection Hres as <-. apply IH. reflexivity.
    + injection Hres as <-. reflexivity.
Qed.

Lemma range_step_concat {A} (l : list A) size starts :
  range_step (length l) size = Ok starts ->
  concat (map (fun i => slice l i (i + size)) starts) = l.
Proof.
  unfold range_step. destruct (Nat.eqb_spec size 0) as [|Hsize]; [discriminate|].
  intros [= <-]. apply windows_concat.
  destruct (ceiling_bounds (length l) size) as [Hlow _]; [lia|exact Hlow].
Qed.

Lemma range_step_positive n size :
  (0 < size)%nat -> exists starts, range_step n size = Ok starts.
Proof.
  intros Hsize. unfold range_step.
  destruct (Nat.eqb_spec size 0); [lia|]. eexists. reflexivity.
Qed.

Lemma gather_completes cfg world chunk :
  (forall results,
     gather (map (fun row => (process_trip cfg (world row) row).1) chunk)
       = Ok results ->
     Forall (completes cfg world) chunk
     /\ omap id results = omap (feature_of cfg world) chunk)
  /\ (Forall (completes cfg world) chunk ->
      exists results,
        gather (map (fun row => (process_trip cfg (world row) row).1) chunk)
          = Ok results).
Proof.
  induction chunk as [|row chunk [IHto IHfrom]]; cbn [map gather].
  - split.
    + intros results [= <-]. split; [constructor|reflexivity].
    + intros _. eexists. reflexivity.
  - split.
    + intros results Hg.
      destruct (process_trip cfg (world row) row).1 as [made|e] eqn:Hrow;
        [|discriminate Hg].
      cbn [rbind] in Hg.
      destruct (gather _) as [rest|e]; [|discriminate Hg].
      cbn [rbind] in Hg. injection Hg as <-.
      destruct (IHto rest eq_refl) as [Hall Hrest]. split.
      * constructor; [exists made; exact Hrow|exact Hall].
      * cbn. unfold feature_of at 1. rewrite Hrow, <- Hrest.
        destruct made; reflexivity.
    + intros Hall. apply Forall_cons in Hall as [[made Hrow] Hall].
      destruct (IHfrom Hall) as [rest Hrest]. rewrite Hrow, Hrest.
      eexists. reflexivity.
Qed.

Lemma chunk_result_completes cfg world chunk :
  (forall new, chunk_result cfg world chunk = Ok new ->
     Forall (completes cfg world) chunk
     /\ new = omap (feature_of cfg world) chunk)
  /\ (Forall (completes cfg world) chunk ->
      chunk_result cfg world chunk = Ok (omap (feature_of cfg world) chunk)).
Proof.
  destruct (gather_completes cfg world chunk) as [Hto Hfrom].
  unfold chunk_result. split.
  - intros new Hres.
    destruct (gather _) as [results|e]; [|discriminate Hres].
    cbn [rbind] in Hres. injection Hres as <-. exact (Hto results eq_refl).
  - intros Hall. destruct (Hfrom Hall) as [results Hg]. rewrite Hg.
    cbn [rbind]. f_equal. exact (proj2 (Hto results Hg)).
Qed.

(** X9.  Neither the chunk size nor the order in which the tasks finish
    changes what a run leaves: for any positive CHUNK_SIZE the run completes
    exactly when the task of every trip left on the work list completes,
    and it then writes as output the Features restored from the checkpoint
    followed by those of the remaining trips in table order, and leaves no
    checkpoint file. *)
Theorem output_independent_of_chunking cfg world df fs :
  (0 < CHUNK_SIZE cfg)%nat ->
  ((main cfg world df (fresh fs)).1 = Ok tt
   <-> Forall (completes cfg world) (work_list fs df))
  /\ ((main cfg world df (fresh fs)).1 = Ok tt ->
      files (main cfg world df (fresh fs)).2 !! final_path
        = Some {| collection_type := "FeatureCollection";
                  features :=
                    Some (restored fs
                          ++ omap (feature_of cfg world) (work_list fs df)) |}
      /\ files (main cfg world df (fresh fs)).2 !! partial_path = None).
Proof.
  intros Hsize.
  destruct (chunk_result_completes cfg world (work_list fs df)) as [Hto Hfrom].
  rewrite main_run, process_trips_run. cbn [fresh files].
  destruct (range_step_positive (length (work_list fs df)) _ Hsize)
    as [starts Hstarts].
  rewrite Hstarts. pose proof (range_step_concat _ _ _ Hstarts) as Hcat.
  cbv zeta.
  destruct (chunk_result cfg world (work_list fs df)) as [new|e] eqn:Hres.
  - destruct (Hto new eq_refl) as [Hall ->].
    match goal with
    | |- context [chunk_loop cfg world ?t ?i ?cs ?f ?s] =>
        destruct (chunk_loop_success cfg world cs t i f s
                    (omap (feature_of cfg world) (work_list fs df)))
          as [Hr Hf];
          [rewrite Hcat; exact Hres|];
        destruct (chunk_loop cfg world t i cs f s) as [r s']
    end.
    cbn [fst snd] in Hr, Hf. subst r.
    destruct (_ !! partial_path) eqn:Hp; cbn [fst snd files].
    + split; [split; [intros _; exact Hall|reflexivity]|]. intros _. split.
      * rewrite lookup_delete_ne by discriminate. apply lookup_insert_eq.
      * apply lookup_delete_eq.
    + split; [split; [intros _; exact Hall|reflexivity]|]. intros _. split.
      * apply lookup_insert_eq.
      * exact Hp.
  - match goal with
    | |- context [chunk_loop cfg world ?t ?i ?cs ?f ?s] =>
        pose proof (chunk_loop_failure cfg world cs t i f s e) as Hr;
        destruct (chunk_loop cfg world t i cs f s) as [r s']
    end.
    cbn [fst] in Hr. rewrite Hr by (rewrite Hcat; exact Hres). cbn [fst].
    split; [|discriminate]. split; [discriminate|].
    intros Hall. specialize (Hfrom Hall). discriminate Hfrom.
Qed.

Lemma output_independent_of_chunking_witness :
  (main chunks_of_two steady_world five_trips (fresh checkpoint_AB)).1 = Ok tt
  /\ ids (default [] (features (default (collection_of [])
        (files (main chunks_of_two steady_world five_trips
                  (fresh checkpoint_AB)).2 !! final_path))))
     = ["A"; "B"; "C"; "D"; "E"]
  /\ files (main chunks_of_two steady_world five_trips
              (fresh checkpoint_AB)).2 !! partial_path = None.
Proof.
  assert ((main chunks_of_two steady_world five_trips (fresh checkpoint_AB)).1
          = Ok tt) as Hok by (vm_compute; reflexivity).
  destruct (output_independent_of_chunking chunks_of_two steady_world five_trips
              checkpoint_AB) as [_ Hfiles].
  - cbn. lia.
  - destruct (Hfiles Hok) as [Hout Hgone].
    split; [exact Hok|].
    split; [rewrite Hout; vm_compute; reflexivity|exact Hgone].
Defined.

(** X10.  When nothing is left to do (an empty table, or every trip already
    in the checkpoint), a run with a positive CHUNK_SIZE issues no request
    and writes no checkpoint: its only effects are to write the restored
    Features as the output and to remove the checkpoint file if there was
    one. *)
Theorem nothing_left_to_do cfg world df fs :
  (0 < CHUNK_SIZE cfg)%nat ->
  work_list fs df = [] ->
  (main cfg world df (fresh fs)).1 = Ok tt
  /\ log (main cfg world df (fresh fs)).2 =
       WriteFile final_path
         {| collection_type := "FeatureCollection";
            features := Some (restored fs) |}
       :: match fs !! partial_path with
          | Some _ => [RemoveFile partial_path]
          | None => []
          end
  /\ files (main cfg world df (fresh fs)).2 =
       delete partial_path
         (<[final_path := {| collection_type := "FeatureCollection";
                             features := Some (restored fs) |}]> fs).
Proof.
  intros Hsize Hwork. rewrite main_run, process_trips_run. cbn [fresh files].
  rewrite Hwork. unfold range_step.
  destruct (Nat.eqb_spec (CHUNK_SIZE cfg) 0); [lia|].
  cbn [length Nat.add]. rewrite Nat.div_small by lia.
  cbn [seq map length chunk_loop mret M_ret log files fresh fst snd app].
  rewrite lookup_insert_ne by discriminate.
  destruct (fs !! partial_path) eqn:Hp; cbn [fst snd log files app].
  - repeat split.
  - repeat split. rewrite delete_id; [reflexivity|].
    rewrite lookup_insert_ne by discriminate. exact Hp.
Qed.

Lemma nothing_left_to_do_witness :
  (main default_config steady_world
     [sample_trip "B" (Some 1%Q) 0 10; sample_trip "A" (Some 1%Q) 0 10]
     (fresh checkpoint_AB)).1 = Ok tt
  /\ log (main default_config steady_world
            [sample_trip "B" (Some 1%Q) 0 10; sample_trip "A" (Some 1%Q) 0 10]
            (fresh checkpoint_AB)).2 =
       [WriteFile final_path
          {| collection_type := "FeatureCollection";
             features := Some [sample_feature "A"; sample_feature "B"] |};
        RemoveFile partial_path].
Proof.
  destruct (nothing_left_to_do default_config steady_world
              [sample_trip "B" (Some 1%Q) 0 10; sample_trip "A" (Some 1%Q) 0 10]
              checkpoint_AB) as (Hres & Hlog & _).
  - cbn. lia.
  - vm_compute. reflexivity.
  - split; [exact Hres|]. rewrite Hlog. reflexivity.
Defined.

Lemma chunk_loop_keeps cfg world chunks : forall total i feats s,
  (forall path, path <> partial_path ->
     files (chunk_loop cfg world total i chunks feats s).2 !! path
       = files s !! path)
  /\ (files (chunk_loop cfg world total i chunks feats s).2 !! partial_path
        = files s !! partial_path
      \/ exists k done,
           chunk_result cfg world (concat (take k chunks)) = Ok done
           /\ files (chunk_loop cfg world total i chunks feats s).2 !! partial_path
              = Some (collection_of (feats ++ done))).
Proof.
  induction chunks as [|chunk chunks IH]; intros total i feats s.
  - cbn. split; [reflexivity|left; reflexivity].
  - rewrite chunk_loop_cons.
    destruct (chunk_result cfg world chunk) as [a|e] eqn:Ha.
    2: { cbn. split; [reflexivity|left; reflexivity]. }
    cbv zeta.
    match goal with
    | |- context [chunk_loop cfg world total (S i) chunks _ ?s1] =>
        destruct (IH total (S i) (feats ++ a) s1) as [Hother Hpartial]
    end.
    cbn [files] in Hother, Hpartial. split.
    + intros path Hpath. rewrite Hother by exact Hpath.
      apply lookup_insert_ne. congruence.
    + right. destruct Hpartial as [Hsame | (k & done & Hdone & Hfile)].
      * exists 1%nat, a. split.
        -- cbn. rewrite app_nil_r. exact Ha.
        -- rewrite Hsame, lookup_insert_eq. reflexivity.
      * exists (S k), (a ++ done). split.
        -- cbn [take concat]. rewrite chunk_result_app, Ha, Hdone. reflexivity.
        -- rewrite Hfile, app_assoc. reflexivity.
Qed.

(** X11.  A run that raises never touches the output file, and it leaves the
    checkpoint either as it found it or holding the restored Features
    followed by those of the first [n] trips of the work list, for some [n]:
    the progress of the chunks completed before the failure is on disk. *)
Theorem failed_run_keeps_progress cfg world df fs e :
  (main cfg world df (fresh fs)).1 = Raise e ->
  files (main cfg world df (fresh fs)).2 !! final_path = fs !! final_path
  /\ (files (main cfg world df (fresh fs)).2 !! partial_path = fs !! partial_path
      \/ exists n done,
           chunk_result cfg world (take n (work_list fs df)) = Ok done
           /\ files (main cfg world df (fresh fs)).2 !! partial_path
              = Some {| collection_type := "FeatureCollection";
                        features := Some (restored fs ++ done) |}).
Proof.
  rewrite main_run, process_trips_run. cbn [fresh files].
  destruct (range_step _ _) as [starts|e'] eqn:Hstarts.
  2: { intros _. split; [reflexivity|left; reflexivity]. }
  pose proof (range_step_concat _ _ _ Hstarts) as Hcat. cbv zeta.
  remember (map (fun i => slice (work_list fs df) i (i + CHUNK_SIZE cfg)) starts)
    as chunks eqn:Hchunks.
  destruct (chunk_loop_keeps cfg world chunks (length chunks) 1%nat
              (restored fs) (fresh fs)) as [Hother Hpartial].
  destruct (chunk_loop cfg world (length chunks) 1%nat chunks (restored fs)
              (fresh fs)) as [[feats|e''] s'].
  { match goal with
    | |- (match ?x with _ => _ end).1 = _ -> _ =>
        destruct x; intros Hno; discriminate Hno
    end. }
  intros _. cbn [fst snd files] in *. split.
  - apply Hother. discriminate.
  - destruct Hpartial as [Hsame | (k & done & Hdone & Hfile)]; [left; exact Hsame|].
    right. exists (length (concat (take k chunks))), done. split; [|exact Hfile].
    rewrite <- Hcat.
    assert (concat chunks = concat (take k chunks) ++ concat (drop k chunks))
      as -> by (rewrite <- concat_app, take_drop; reflexivity).
    rewrite take_app_length' by reflexivity. exact Hdone.
Qed.

Lemma failed_run_keeps_progress_witness :
  (main chunks_of_two (failing_world "E") five_trips (fresh ∅)).1 = Raise TypeError
  /\ files (main chunks_of_two (failing_world "E") five_trips (fresh ∅)).2
       !! final_path = None
  /\ exists done,
       chunk_result chunks_of_two (failing_world "E") (take 4 five_trips) = Ok done
       /\ ids done = ["A"; "B"; "C"; "D"]
       /\ files (main chunks_of_two (failing_world "E") five_trips (fresh ∅)).2
            !! partial_path
          = Some {| collection_type := "FeatureCollection";
                    features := Some ([] ++ done) |}.
Proof.
  assert ((main chunks_of_two (failing_world "E") five_trips (fresh ∅)).1
          = Raise TypeError) as Hraise by (vm_compute; reflexivity).
  destruct (failed_run_keeps_progress chunks_of_two (failing_world "E")
              five_trips ∅ TypeError Hraise) as [Hout _].
  split; [exact Hraise|]. split; [exact Hout|].
  eexists. split; [vm_compute; reflexivity|]. split; [reflexivity|].
  vm_compute. reflexivity.
Defined.

Lemma gather_ids cfg world chunk : forall results,
  gather (map (fun row => (process_trip cfg (world row) row).1) chunk)
    = Ok results ->
  ids (omap id results) `sublist_of` map trip_ID chunk.
Proof.
  induction chunk as [|row chunk IH]; intros results; cbn.
  - intros [= <-]. constructor.
  - destruct (process_trip cfg (world row) row).1 as [made|] eqn:Hrow;
      [|discriminate]. cbn.
    destruct (gather _) as [rest|]; [|discriminate]. cbn.
    intros [= <-]. specialize (IH rest eq_refl).
    destruct made as [f|]; cbn.
    + destruct (process_trip_feature _ _ _ _ Hrow) as (n & _ & _ & -> & _).
      apply sublist_skip. exact IH.
    + apply sublist_cons. exact IH.
Qed.

Lemma chunk_result_ids cfg world chunk new :
  chunk_result cfg world chunk = Ok new ->
  ids new `sublist_of` map trip_ID chunk.
Proof.
  unfold chunk_result. destruct (gather _) as [results|] eqn:Hg; [|discriminate].
  cbn. intros [= <-]. exact (gather_ids _ _ _ _ Hg).
Qed.

Lemma main_success cfg world df fs :
  (main cfg world df (fresh fs)).1 = Ok tt ->
  exists new,
    chunk_result cfg world (work_list fs df) = Ok new
    /\ files (main cfg world df (fresh fs)).2 !! final_path
       = Some (collection_of (restored fs ++ new)).
Proof.
  rewrite main_run, process_trips_run. cbn [fresh files].
  destruct (range_step _ _) as [starts|e'] eqn:Hstarts; [|discriminate].
  pose proof (range_step_concat _ _ _ Hstarts) as Hcat. cbv zeta.
  remember (map (fun i => slice (work_list fs df) i (i + CHUNK_SIZE cfg)) starts)
    as chunks eqn:Hchunks.
  destruct (chunk_result cfg world (work_list fs df)) as [new|e] eqn:Hres.
  - destruct (chunk_loop_success cfg world chunks (length chunks) 1%nat
                (restored fs) (fresh fs) new) as [Hr _];
      [rewrite Hcat; exact Hres|].
    destruct (chunk_loop cfg world (length chunks) 1%nat chunks (restored fs)
                (fresh fs)) as [r s'].
    cbn [fst] in Hr. subst r. intros _. exists new. split; [reflexivity|].
    match goal with
    | |- files (match ?x with _ => _ end).2 !! _ = _ => destruct x
    end; cbn [snd files].
    + rewrite lookup_delete_ne by discriminate. apply lookup_insert_eq.
    + apply lookup_insert_eq.
  - pose proof (chunk_loop_failure cfg world chunks (length chunks) 1%nat
                  (restored fs) (fresh fs) e) as Hr.
    destruct (chunk_loop cfg world (length chunks) 1%nat chunks (restored fs)
                (fresh fs)) as [r s'].
    cbn [fst] in Hr. rewrite Hr by (rewrite Hcat; exact Hres). discriminate.
Qed.

(** X12.  Trip identifiers stay unique: when no identifier occurs twice in
    the trip table nor twice in the checkpoint, a run that completes writes
    an output in which no identifier occurs twice, and every identifier in
    it comes from the checkpoint or from the table. *)
Theorem output_ids_stay_unique cfg world df fs :
  NoDup (map trip_ID df) ->
  NoDup (ids (restored fs)) ->
  (main cfg world df (fresh fs)).1 = Ok tt ->
  exists feats,
    files (main cfg world df (fresh fs)).2 !! final_path
      = Some {| collection_type := "FeatureCollection"; features := Some feats |}
    /\ NoDup (ids feats)
    /\ forall trip, trip ∈ ids feats ->
         trip ∈ ids (restored fs) \/ trip ∈ map trip_ID df.
Proof.
  intros Htable Hcheckpoint Hok.
  destruct (main_success cfg world df fs Hok) as (new & Hnew & Hfile).
  exists (restored fs ++ new). split; [exact Hfile|].
  pose proof (chunk_result_ids _ _ _ _ Hnew) as Hsub.
  assert (map trip_ID (work_list fs df) `sublist_of` map trip_ID df) as Hwork.
  { unfold work_list. destruct (fs !! partial_path); [|reflexivity].
    apply (fmap_sublist trip_ID). apply sublist_filter. }
  unfold ids at 1 2. rewrite map_app. fold (ids (restored fs)) (ids new). split.
  - apply NoDup_app. split; [exact Hcheckpoint|]. split.
    + intros trip Hin Hin'.
      apply (elem_of_sublist _ _ _ Hin') in Hsub.
      apply list_elem_of_fmap in Hsub as (row & -> & Hrow).
      unfold work_list, restored in *.
      destruct (fs !! partial_path) as [existing|];
        [|apply elem_of_nil in Hin; exact Hin].
      apply list_elem_of_filter in Hrow as [Hnot _].
      apply Hnot. apply elem_of_list_to_set. exact Hin.
    + eapply sublist_NoDup; [|exact Hsub].
      eapply sublist_NoDup; [exact Htable|exact Hwork].
  - intros trip Hin. apply elem_of_app in Hin as [Hin|Hin]; [left; exact Hin|].
    right. eapply elem_of_sublist; [|exact Hwork].
    eapply elem_of_sublist; [exact Hin|exact Hsub].
Qed.

Lemma output_ids_stay_unique_witness :
  exists feats,
    files (main chunks_of_two steady_world five_trips (fresh checkpoint_AB)).2
      !! final_path
      = Some {| collection_type := "FeatureCollection"; features := Some feats |}
    /\ ids feats = ["A"; "B"; "C"; "D"; "E"]
    /\ NoDup (ids feats).
Proof.
  destruct (output_ids_stay_unique chunks_of_two steady_world five_trips
              checkpoint_AB) as (feats & Hfile & Hunique & _).
  - cbn. apply NoDup_ListNoDup. repeat constructor; cbn; intuition discriminate.
  - cbn. apply NoDup_ListNoDup. repeat constructor; cbn; intuition discriminate.
  - vm_compute. reflexivity.
  - exists feats. split; [exact Hfile|]. split; [|exact Hunique].
    vm_compute in Hfile. injection Hfile as <-. reflexivity.
Defined.

(** ** Concurrency Coordinator: the chunk completes *)

Lemma fetch_length cfg session row :
  (length (process_trip cfg session row).2 <= 2 * MAX_RETRIES cfg + 1)%nat.
Proof.
  unfold process_trip.
  destruct (pickup_location_latitude row); [|cbn; lia].
  destruct (pickup_location_longitude row); [|cbn; lia].
  match goal with
  | |- context [get_osrm_route cfg session ?a ?b ?c ?d 0] =>
      destruct (fetch_trace cfg session a b c d 0) as (n & Hn & Htrace);
      destruct (get_osrm_route cfg session a b c d 0) as [r evs]
  end.
  cbn [snd] in *. subst evs. rewrite Nat.max_0_l in Hn.
  rewrite length_app. cbn [length].
  assert (forall from, length (retries cfg q0 q
            (default q0 (dropoff_location_longitude row))
            (default q (dropoff_location_latitude row)) from n) = (2 * n)%nat) as ->.
  { unfold retries. clear. induction n as [|n IH]; intros from; [reflexivity|].
    cbn [seq flat_map app length]. rewrite IH. lia. }
  lia.
Qed.

Lemma weight_insert cfg ts : forall i t t',
  ts !! i = Some t ->
  (list_sum (map (task_weight cfg) (<[i := t']> ts)) + task_weight cfg t
   = list_sum (map (task_weight cfg) ts) + task_weight cfg t')%nat.
Proof.
  intros i t t' Hi.
  rewrite insert_take_drop by (eapply lookup_lt_Some; exact Hi).
  replace (list_sum (map (task_weight cfg) ts))
    with (list_sum (map (task_weight cfg) (take i ts ++ t :: drop (S i) ts)))
    by (rewrite (take_drop_middle ts i t Hi); reflexivity).
  rewrite !map_app, !list_sum_app. cbn [map list_sum foldr]. lia.
Qed.

Lemma tasks_length cfg world chunk s :
  Coordinator.reachable cfg world chunk s ->
  length (Coordinator.tasks s) = length chunk.
Proof.
  intros Hreach.
  apply (rtc_ind_r (R := Coordinator.step cfg world chunk)
           (fun s => length (Coordinator.tasks s) = length chunk)
           (Coordinator.init cfg chunk)); [| |exact Hreach].
  - cbn. apply length_map.
  - intros s1 s2 _ Hstep IH.
    destruct Hstep; cbn in *; rewrite length_insert; exact IH.
Qed.

Lemma tasks_classified (ts : list Coordinator.task) :
  (exists i pending, ts !! i = Some (Coordinator.Holding pending))
  \/ (List.filter Coordinator.holding ts = []
      /\ ((exists i, ts !! i = Some Coordinator.Waiting)
          \/ Forall (fun t => t = Coordinator.Released) ts)).
Proof.
  induction ts as [|t ts IH].
  - right. split; [reflexivity|]. right. constructor.
  - destruct t as [|pending|].
    + destruct IH as [(i & pending & Hi) | [Hnone Hrest]].
      * left. exists (S i), pending. exact Hi.
      * right. split; [exact Hnone|]. left. exists 0%nat. reflexivity.
    + left. exists 0%nat, pending. reflexivity.
    + destruct IH as [(i & pending & Hi) | [Hnone [(i & Hi) | Hall]]].
      * left. exists (S i), pending. exact Hi.
      * right. split; [exact Hnone|]. left. exists (S i). exact Hi.
      * right. split; [exact Hnone|]. right. constructor; [reflexivity|exact Hall].
Qed.

(** X13.  With a bound of at least one, the tasks of a chunk never get
    stuck: in every reachable state either all tasks have left the
    semaphore's block or some task can take a step; and every step uses up
    some of the work left, which starts at (2 * MAX_RETRIES + 3) per task, so
    a chunk is through after at most that many steps per trip. *)
Theorem chunk_always_completes cfg world chunk s :
  (1 <= CONCURRENT_REQUESTS cfg)%nat ->
  Coordinator.reachable cfg world chunk s ->
  (Forall (fun t => t = Coordinator.Released) (Coordinator.tasks s)
   \/ exists s', Coordinator.step cfg world chunk s s')
  /\ (forall s', Coordinator.step cfg world chunk s s' ->
        (remaining_work cfg s' < remaining_work cfg s)%nat)
  /\ remaining_work cfg (Coordinator.init cfg chunk)
     = (length chunk * (2 * MAX_RETRIES cfg + 3))%nat.
Proof.
  intros Hbound Hreach. split; [|split].
  - pose proof (units_conserved _ _ _ _ Hreach) as Hunits.
    pose proof (tasks_length _ _ _ _ Hreach) as Hlen.
    destruct s as [v ts]. cbn in *.
    destruct (tasks_classified ts)
      as [(i & pending & Hi) | [Hnone [(i & Hi) | Hall]]].
    + right. destruct pending as [|e evs].
      * eexists. exact (Coordinator.release cfg world chunk i v ts Hi).
      * eexists. exact (Coordinator.advance cfg world chunk i e evs v ts Hi).
    + right. unfold Coordinator.in_block, Coordinator.count in Hunits.
      cbn in Hunits. rewrite Hnone in Hunits. cbn in Hunits.
      destruct v as [|v]; [lia|].
      destruct (chunk !! i) as [row|] eqn:Hrow.
      * eexists. exact (Coordinator.acquire cfg world chunk i row v ts Hi Hrow).
      * apply lookup_ge_None in Hrow. apply lookup_lt_Some in Hi. lia.
    + left. exact Hall.
  - intros s' Hstep. unfold remaining_work.
    destruct Hstep as [i row v ts Hi _|i e evs v ts Hi|i v ts Hi]; cbn [Coordinator.tasks].
    + pose proof (weight_insert cfg ts i _
                    (Coordinator.Holding (process_trip cfg (world row) row).2) Hi)
        as Hw.
      pose proof (fetch_length cfg (world row) row). cbn in Hw. lia.
    + pose proof (weight_insert cfg ts i _ (Coordinator.Holding evs) Hi) as Hw.
      cbn in Hw. lia.
    + pose proof (weight_insert cfg ts i _ Coordinator.Released Hi) as Hw.
      cbn in Hw. lia.
  - unfold remaining_work, Coordinator.init. cbn [Coordinator.tasks].
    clear Hreach. induction chunk as [|row chunk IH]; [reflexivity|].
    cbn [map length]. change (list_sum (?x :: ?l)) with (x + list_sum l)%nat.
    rewrite IH. cbn [task_weight]. lia.
Qed.

Lemma chunk_always_completes_witness :
  (Forall (fun t => t = Coordinator.Released) (Coordinator.tasks two_inside)
   \/ exists s', Coordinator.step two_slots steady_world five_trips two_inside s')
  /\ remaining_work two_slots two_inside = 43%nat
  /\ remaining_work two_slots (Coordinator.init two_slots five_trips) = 65%nat.
Proof.
  destruct (chunk_always_completes two_slots steady_world five_trips two_inside)
    as (Hprogress & _ & Hstart).
  - cbn. lia.
  - unfold Coordinator.reachable.
    eapply rtc_l.
    { exact (Coordinator.acquire two_slots steady_world five_trips 0%nat
               (sample_trip "A" (Some 1%Q) 0 10) 1%nat
               (map (fun _ => Coordinator.Waiting) five_trips)
               eq_refl eq_refl). }
    eapply rtc_l.
    { apply (Coordinator.acquire two_slots steady_world five_trips 1%nat
               (sample_trip "B" (Some 1%Q) 0 10) 0%nat); reflexivity. }
    match goal with
    | |- rtc _ ?x _ =>
        assert (x = two_inside) as -> by (vm_compute; reflexivity)
    end.
    apply rtc_refl.
  - split; [exact Hprogress|]. split; [reflexivity|].
    rewrite Hstart. reflexivity.
Defined.

(** ** Chunk Scheduler: the schedule of checkpoints and pauses *)

Lemma marks_app l1 l2 : marks (l1 ++ l2) = marks l1 ++ marks l2.
Proof. apply omap_app. Qed.

Lemma marks_chunk_events cfg world chunk : marks (chunk_events cfg world chunk) = [].
Proof.
  unfold chunk_events. induction chunk as [|row chunk IH]; [reflexivity|].
  cbn [map concat]. rewrite marks_app, IH, app_nil_r.
  induction (process_trip cfg (world row) row).2 as [|e evs IHe];
    [reflexivity|exact IHe].
Qed.

Lemma chunk_loop_marks cfg world chunks : forall total i feats s fs,
  (i + length chunks = S total)%nat ->
  (chunk_loop cfg world total i chunks feats s).1 = Ok fs ->
  marks (log (chunk_loop cfg world total i chunks feats s).2) =
    marks (log s)
    ++ concat (replicate (length chunks - 1) [Wrote partial_path; Paused 2])
    ++ match chunks with [] => [] | _ => [Wrote partial_path] end.
Proof.
  induction chunks as [|chunk chunks IH]; intros total i feats s fs Hi.
  - cbn. rewrite app_nil_r. reflexivity.
  - rewrite chunk_loop_cons.
    destruct (chunk_result cfg world chunk) as [a|]; [|discriminate].
    cbv zeta. intros Hok. cbn [length] in Hi.
    rewrite (IH total (S i) _ _ fs) by (lia || exact Hok).
    cbn [log]. rewrite !marks_app, marks_chunk_events, app_nil_r.
    change (marks [WriteFile partial_path ?c]) with [Wrote partial_path].
    destruct chunks as [|chunk' chunks].
    + cbn [length] in *. destruct (Nat.ltb_spec i total); [lia|].
      cbn. rewrite !app_nil_r. reflexivity.
    + cbn [length] in *. destruct (Nat.ltb_spec i total); [|lia].
      replace (S (S (length chunks)) - 1)%nat with (S (S (length chunks) - 1))
        by lia.
      cbn [replicate concat marks omap mark_of]. rewrite <- !app_assoc.
      reflexivity.
Qed.

(** X14.  The schedule of a run that completes, for any positive
    CHUNK_SIZE: with m = ceil(n / CHUNK_SIZE) chunks for the n trips left to
    process, the driver's own effects are, in this order and with no other
    write, removal or pause: m writes of the checkpoint file, each but the
    last followed by a pause of 2 seconds; one write of the output file; and
    the removal of the checkpoint file if it exists at that point (always
    when n > 0, and when n = 0 if there was one at the start).  The output
    file is never removed and no other path is written. *)
Theorem schedule_of_a_completed_run cfg world df fs :
  (0 < CHUNK_SIZE cfg)%nat ->
  (main cfg world df (fresh fs)).1 = Ok tt ->
  marks (log (main cfg world df (fresh fs)).2) =
    concat (replicate
              ((length (work_list fs df) + CHUNK_SIZE cfg - 1) / CHUNK_SIZE cfg - 1)
              [Wrote partial_path; Paused 2])
    ++ (if (length (work_list fs df) =? 0)%nat then [] else [Wrote partial_path])
    ++ [Wrote final_path]
    ++ (if (length (work_list fs df) =? 0)%nat
        then match fs !! partial_path with
             | Some _ => [Removed partial_path]
             | None => []
             end
        else [Removed partial_path]).
Proof.
  intros Hsize. rewrite main_run, process_trips_run. cbn [fresh files].
  destruct (range_step_positive (length (work_list fs df)) _ Hsize)
    as [starts Hstarts].
  rewrite Hstarts. cbv zeta.
  assert (length starts
          = ((length (work_list fs df) + CHUNK_SIZE cfg - 1) / CHUNK_SIZE cfg)%nat)
    as Hcount.
  { unfold range_step in Hstarts.
    destruct (Nat.eqb_spec (CHUNK_SIZE cfg) 0); [lia|].
    injection Hstarts as <-. rewrite length_map, length_seq. reflexivity. }
  rewrite <- Hcount.
  assert ((length (work_list fs df) =? 0)%nat
          = match starts with [] => true | _ => false end) as ->.
  { destruct (ceiling_bounds (length (work_list fs df)) (CHUNK_SIZE cfg) Hsize)
      as [Hlow Hhigh].
    rewrite <- Hcount in Hlow, Hhigh.
    destruct starts; cbn [length] in *;
      destruct (Nat.eqb_spec (length (work_list fs df)) 0); lia || reflexivity. }
  remember (map (fun i => slice (work_list fs df) i (i + CHUNK_SIZE cfg)) starts)
    as chunks eqn:Hchunks.
  assert (length chunks = length starts) as Hlen
    by (subst chunks; apply length_map).
  pose proof (chunk_loop_marks cfg world chunks (length chunks) 1%nat
                (restored fs) (fresh fs)) as Hmarks.
  pose proof (chunk_loop_success cfg world chunks (length chunks) 1%nat
                (restored fs) (fresh fs)) as Hsuccess.
  destruct (chunk_loop cfg world (length chunks) 1%nat chunks (restored fs)
              (fresh fs)) as [[feats|e] s'] eqn:Hloop; [|discriminate].
  intros _. cbn [fst snd] in *.
  specialize (Hmarks feats eq_refl eq_refl). cbn [fresh log marks omap] in Hmarks.
  rewrite app_nil_l in Hmarks.
  assert (s'.(files) !! partial_path
          = match chunks with
            | [] => fs !! partial_path
            | _ => s'.(files) !! partial_path
            end) as Hcases by (destruct chunks; [|reflexivity];
                                cbn in Hloop; injection Hloop as _ <-; reflexivity).
  rewrite lookup_insert_ne by discriminate.
  destruct chunks as [|chunk chunks], starts as [|start starts];
    try discriminate Hlen.
  - rewrite Hcases. destruct (fs !! partial_path); cbn [snd log];
      rewrite ?marks_app, Hmarks; reflexivity.
  - assert (is_Some (files s' !! partial_path)) as [content Hcontent].
    { destruct (chunk_result cfg world (concat (chunk :: chunks)))
        as [new|e] eqn:Hres.
      - destruct (Hsuccess new eq_refl) as [_ ->].
        rewrite lookup_insert_eq. eauto.
      - pose proof (chunk_loop_failure cfg world (chunk :: chunks)
                      (length (chunk :: chunks)) 1%nat (restored fs) (fresh fs)
                      e Hres) as Hfail.
        rewrite Hloop in Hfail. discriminate Hfail. }
    rewrite Hcontent. cbn [snd log]. rewrite !marks_app, Hmarks.
    cbn [length] in *. injection Hlen as ->. rewrite <- !app_assoc. reflexivity.
Qed.

Lemma schedule_of_a_completed_run_witness :
  marks (log (main chunks_of_two steady_world five_trips (fresh ∅)).2) =
    [Wrote "precomputed_routes_partial.json"; Paused 2;
     Wrote "precomputed_routes_partial.json"; Paused 2;
     Wrote "precomputed_routes_partial.json";
     Wrote "precomputed_routes.json";
     Removed "precomputed_routes_partial.json"].
Proof.
  rewrite (schedule_of_a_completed_run chunks_of_two steady_world five_trips ∅).
  - reflexivity.
  - cbn. lia.
  - vm_compute. reflexivity.
Defined.

(** ** Interval slicing: the points of one route *)

Section IntervalFacts.
Import Intervals.

Lemma index_first {A} (l : list A) x : index l 0 = Ok x -> l !! 0%nat = Some x.
Proof.
  destruct l as [|y l]; [discriminate|]. intros [= <-]. reflexivity.
Qed.

Lemma index_last {A} (l : list A) x :
  index l (-1) = Ok x -> l !! (length l - 1)%nat = Some x /\ l <> [].
Proof.
  unfold index. change (-1 <? 0) with true. cbv iota.
  destruct ((0 <=? Z.of_nat (length l) + -1)
            && (Z.of_nat (length l) + -1 <? Z.of_nat (length l)))%bool eqn:Hin;
    [|discriminate].
  apply andb_true_iff in Hin as [Hlow _]. apply Z.leb_le in Hlow.
  replace (Z.to_nat (Z.of_nat (length l) + -1)) with (length l - 1)%nat by lia.
  destruct (l !! (length l - 1)%nat) eqn:Hl; [|discriminate].
  intros [= <-]. split; [reflexivity|]. intros ->. discriminate.
Qed.

Lemma index_total {A} (l : list A) :
  l <> [] -> (exists x, index l 0 = Ok x) /\ (exists y, index l (-1) = Ok y).
Proof.
  intros Hne. destruct l as [|x l]; [contradiction|]. split.
  - exists x. reflexivity.
  - unfold index. change (-1 <? 0) with true. cbv iota.
    destruct ((0 <=? Z.of_nat (length (x :: l)) + -1)
              && (Z.of_nat (length (x :: l)) + -1 <? Z.of_nat (length (x :: l))))%bool
      eqn:Hin.
    + destruct ((x :: l) !! Z.to_nat (Z.of_nat (length (x :: l)) + -1)) eqn:Hl;
        [eauto|].
      apply lookup_ge_None in Hl. cbn [length] in Hl. lia.
    + apply andb_false_iff in Hin as [Hin|Hin];
        [apply Z.leb_gt in Hin|apply Z.ltb_ge in Hin]; cbn [length] in Hin; lia.
Qed.

Lemma zip_lookup {A B} (a : list A) (b : list B) i x y :
  zip a b !! i = Some (x, y) -> a !! i = Some x /\ b !! i = Some y.
Proof.
  revert b i. induction a as [|x' a IH]; intros [|y' b] i; try discriminate.
  destruct i as [|i]; cbn.
  - intros [= -> ->]. split; reflexivity.
  - apply IH.
Qed.

Lemma zip_elem {A B} (a : list A) (b : list B) x y :
  (x, y) ∈ zip a b -> x ∈ a /\ y ∈ b.
Proof.
  intros Hin. apply list_elem_of_lookup in Hin as [i Hi].
  apply zip_lookup in Hi as [Ha Hb].
  split; eapply list_elem_of_lookup_2; eassumption.
Qed.

Lemma zip_same_length {A B} (a : list A) (b : list B) i x :
  length b = length a -> a !! i = Some x -> exists y, zip a b !! i = Some (x, y).
Proof.
  revert b i. induction a as [|x' a IH]; intros [|y' b] i Hlen;
    try discriminate Hlen.
  - destruct i; intros Hi; discriminate Hi.
  - destruct i as [|i]; cbn.
    + intros [= ->]. eauto.
    + apply IH. cbn in Hlen. lia.
Qed.

Lemma make_point_fields trip_id coord point_time type p :
  make_point trip_id coord point_time type = Ok p ->
  route_id p = trip_id /\ timestamp p = point_time /\ point_type p = type
  /\ getitem_int coord 0 = Ok (longitude p)
  /\ getitem_int coord 1 = Ok (latitude p).
Proof.
  unfold make_point.
  destruct (getitem_int coord 0) as [lon|]; [|discriminate].
  destruct (getitem_int coord 1) as [lat|]; [|discriminate].
  intros [= <-]. repeat split.
Qed.

Lemma interval_end_found trip_id current_time last_idx pairs : forall point_idx a,
  interval_end trip_id current_time last_idx point_idx pairs = Ok a ->
  a = []
  \/ exists p point_time coord,
       a = [p]
       /\ make_point trip_id coord point_time "interval_end" = Ok p
       /\ Z.abs (point_time - current_time) < 60
       /\ (point_idx <= Z.to_nat last_idx)%nat
       /\ pairs !! (Z.to_nat last_idx - point_idx)%nat = Some (point_time, coord).
Proof.
  induction pairs as [|[point_time coord] pairs IH]; intros point_idx a; cbn.
  - intros [= <-]. left. reflexivity.
  - destruct ((Z.abs (point_time - current_time) <? 60)
              && (Z.of_nat point_idx =? last_idx))%bool eqn:Hhere.
    + apply andb_true_iff in Hhere as [Hnear Hidx].
      apply Z.ltb_lt in Hnear. apply Z.eqb_eq in Hidx.
      destruct (make_point _ _ _ _) as [p|] eqn:Hp; [|discriminate].
      intros [= <-]. right. exists p, point_time, coord.
      repeat split; try reflexivity; try lia; try exact Hp.
      replace (Z.to_nat last_idx - point_idx)%nat with 0%nat by lia. reflexivity.
    + intros Ha. apply IH in Ha as [-> | (p & t & c & -> & Hp & Hnear & Hle & Hat)];
        [left; reflexivity|].
      right. exists p, t, c. repeat split; try assumption; try lia.
      replace (Z.to_nat last_idx - point_idx)%nat
        with (S (Z.to_nat last_idx - S point_idx)) by lia.
      exact Hat.
Qed.

Lemma closest_found trip_id current_time pairs : forall min_time_diff before after,
  closest trip_id current_time pairs min_time_diff before = Ok after ->
  (after = before
   /\ forall t c, (t, c) ∈ pairs -> min_time_diff <= Z.abs (t - current_time))
  \/ exists p t c,
       after = Some p /\ (t, c) ∈ pairs
       /\ make_point trip_id c t "ongoing" = Ok p
       /\ Z.abs (t - current_time) < min_time_diff
       /\ forall t' c', (t', c') ∈ pairs ->
            Z.abs (t - current_time) <= Z.abs (t' - current_time).
Proof.
  induction pairs as [|[point_time coord] pairs IH];
    intros min_time_diff before after; cbn.
  - intros [= <-]. left. split; [reflexivity|].
    intros t c Hin. apply elem_of_nil in Hin. contradiction.
  - destruct (Z.ltb_spec (Z.abs (point_time - current_time)) min_time_diff)
      as [Hlt|Hge].
    + destruct (make_point _ _ _ _) as [p|] eqn:Hp; [|discriminate]. cbn.
      intros Hrest.
      apply IH in Hrest as [[-> Hfar] | (p' & t & c & -> & Hin & Hp' & Hnear & Hmin)].
      * right. exists p, point_time, coord.
        split; [reflexivity|]. split; [apply elem_of_cons; left; reflexivity|].
        split; [exact Hp|]. split; [exact Hlt|].
        intros t' c' Hin. apply elem_of_cons in Hin as [[= -> ->]|Hin]; [lia|].
        exact (Hfar _ _ Hin).
      * right. exists p', t, c.
        split; [reflexivity|]. split; [apply elem_of_cons; right; exact Hin|].
        split; [exact Hp'|]. split; [lia|].
        intros t' c' Hin'. apply elem_of_cons in Hin' as [[= -> ->]|Hin']; [lia|].
        exact (Hmin _ _ Hin').
    + intros Hrest.
      apply IH in Hrest as [[-> Hfar] | (p' & t & c & -> & Hin & Hp' & Hnear & Hmin)].
      * left. split; [reflexivity|].
        intros t' c' Hin. apply elem_of_cons in Hin as [[= -> ->]|Hin]; [lia|].
        exact (Hfar _ _ Hin).
      * right. exists p', t, c.
        split; [reflexivity|]. split; [apply elem_of_cons; right; exact Hin|].
        split; [exact Hp'|]. split; [exact Hnear|].
        intros t' c' Hin'. apply elem_of_cons in Hin' as [[= -> ->]|Hin']; [lia|].
        exact (Hmin _ _ Hin').
Qed.

Lemma datetime_add_ok t delta r :
  datetime_add t delta = Ok r ->
  r = t + delta /\ datetime_min <= t + delta <= datetime_max.
Proof.
  unfold datetime_add.
  destruct ((datetime_min <=? t + delta) && (t + delta <=? datetime_max))%bool
    eqn:Hrange; [|discriminate].
  apply andb_true_iff in Hrange as [Hlow Hhigh].
  apply Z.leb_le in Hlow. apply Z.leb_le in Hhigh.
  intros [= <-]. lia.
Qed.

Lemma datetime_add_in_range t delta :
  datetime_min <= t + delta <= datetime_max ->
  datetime_add t delta = Ok (t + delta).
Proof.
  intros [Hlow Hhigh]. unfold datetime_add.
  apply Z.leb_le in Hlow. apply Z.leb_le in Hhigh. rewrite Hlow, Hhigh.
  reflexivity.
Qed.

Lemma route_points_parts current_time interval_delta feature pts :
  route_points current_time interval_delta feature = Ok pts ->
  exists first last coords at_end ongoing previous,
    times (properties feature) !! 0%nat = Some first
    /\ times (properties feature) !! (length (times (properties feature)) - 1)%nat
       = Some last
    /\ iterate (coordinates (geometry feature)) = Ok coords
    /\ interval_end (tripId (properties feature)) current_time
         (Z.of_nat (length (times (properties feature))) - 1) 0
         (zip (times (properties feature)) coords) = Ok at_end
    /\ ((first < current_time < last
         /\ exists found,
              closest (tripId (properties feature)) current_time
                (zip (times (properties feature)) coords) interval_delta None
                = Ok found
              /\ ongoing = match found with Some p => [p] | None => [] end)
        \/ (~ first < current_time < last /\ ongoing = []))
    /\ ((current_time - interval_delta < last < current_time - 60
         /\ exists c p,
              getitem_int (coordinates (geometry feature)) (-1) = Ok c
              /\ make_point (tripId (properties feature)) c last "previous_end"
                 = Ok p
              /\ previous = [p])
        \/ (~ current_time - interval_delta < last < current_time - 60
            /\ previous = []))
    /\ pts = at_end ++ ongoing ++ previous.
Proof.
  unfold route_points. intros H.
  destruct (index (times (properties feature)) 0) as [first|] eqn:Hfirst;
    [|discriminate]. cbn [rbind] in H.
  destruct (index (times (properties feature)) (-1)) as [last|] eqn:Hlast;
    [|discriminate]. cbn [rbind] in H.
  destruct (iterate (coordinates (geometry feature))) as [coords|] eqn:Hcoords;
    [|discriminate]. cbn [rbind] in H.
  destruct (interval_end _ _ _ _ _) as [at_end|] eqn:Hend; [|discriminate].
  cbn [rbind] in H.
  destruct (datetime_add current_time (- interval_delta)) as [interval_start|]
    eqn:Hstart; [|discriminate].
  cbn [rbind] in H. apply datetime_add_ok in Hstart as [-> _].
  replace (current_time + - interval_delta) with (current_time - interval_delta)
    in H by lia.
  apply index_first in Hfirst. apply index_last in Hlast as [Hlast _].
  exists first, last, coords, at_end.
  destruct ((first <? current_time) && (current_time <? last))%bool eqn:Hin.
  - apply andb_true_iff in Hin as [H1 H2].
    apply Z.ltb_lt in H1. apply Z.ltb_lt in H2.
    destruct (closest _ _ _ _ _) as [found|] eqn:Hfound; [|discriminate].
    cbn [rbind] in H.
    destruct ((current_time - interval_delta <? last)
              && (last <? current_time - 60))%bool eqn:Hprev.
    + apply andb_true_iff in Hprev as [H3 H4].
      apply Z.ltb_lt in H3. apply Z.ltb_lt in H4. lia.
    + cbn [rbind] in H. injection H as <-.
      eexists _, []. repeat (split; [eassumption || reflexivity|]).
      split; [left; split; [lia|]; eauto|].
      split; [|reflexivity]. right. split; [|reflexivity].
      apply andb_false_iff in Hprev as [Hp|Hp];
        [apply Z.ltb_ge in Hp|apply Z.ltb_ge in Hp]; lia.
  - cbn [rbind] in H.
    assert (~ first < current_time < last) as Hout.
    { apply andb_false_iff in Hin as [Hp|Hp];
        [apply Z.ltb_ge in Hp|apply Z.ltb_ge in Hp]; lia. }
    destruct ((current_time - interval_delta <? last)
              && (last <? current_time - 60))%bool eqn:Hprev.
    + apply andb_true_iff in Hprev as [H3 H4].
      apply Z.ltb_lt in H3. apply Z.ltb_lt in H4.
      destruct (getitem_int _ _) as [c|] eqn:Hc; [|discriminate].
      cbn [rbind] in H.
      destruct (make_point _ _ _ _) as [p|] eqn:Hp; [|discriminate].
      cbn [rbind] in H. injection H as <-.
      exists [], [p]. repeat (split; [eassumption || reflexivity|]).
      split; [right; split; [exact Hout|reflexivity]|].
      split; [|reflexivity]. left. split; [lia|]. eauto.
    + cbn [rbind] in H. injection H as <-.
      exists [], []. repeat (split; [eassumption || reflexivity|]).
      split; [right; split; [exact Hout|reflexivity]|].
      split; [|reflexivity]. right. split; [|reflexivity].
      apply andb_false_iff in Hprev as [Hp|Hp];
        [apply Z.ltb_ge in Hp|apply Z.ltb_ge in Hp]; lia.
Qed.

End IntervalFacts.

(** X15.  For the interval at one instant a route contributes at most two
    points, each labelled with the route's tripId, of type interval_end,
    ongoing or previous_end, and stamped with one of the route's own times;
    a previous_end point is never accompanied by another point of the same
    route. *)
Theorem route_gives_at_most_two_points current_time interval_delta feature pts :
  Intervals.route_points current_time interval_delta feature = Ok pts ->
  (length pts <= 2)%nat
  /\ Forall (fun p =>
              Intervals.route_id p = tripId (properties feature)
              /\ (Intervals.point_type p = "interval_end"
                  \/ Intervals.point_type p = "ongoing"
                  \/ Intervals.point_type p = "previous_end")
              /\ Intervals.timestamp p ∈ times (properties feature)) pts
  /\ (forall p, p ∈ pts -> Intervals.point_type p = "previous_end" -> pts = [p]).
Proof.
  intros H.
  destruct (route_points_parts _ _ _ _ H)
    as (first & last & coords & at_end & ongoing & previous
        & Hfirst & Hlast & Hcoords & Hend & Hongoing & Hprevious & ->).
  apply interval_end_found in Hend.
  assert (at_end = [] \/ exists p,
            at_end = [p] /\ Intervals.route_id p = tripId (properties feature)
            /\ Intervals.point_type p = "interval_end"
            /\ Intervals.timestamp p = last
            /\ Z.abs (last - current_time) < 60) as Hend'.
  { destruct Hend as [-> | (p & t & c & -> & Hp & Hnear & _ & Hat)];
      [left; reflexivity|].
    right. exists p. apply make_point_fields in Hp as (Hid & Ht & Hty & _).
    apply zip_lookup in Hat as [Hat _].
    replace (Z.to_nat (Z.of_nat (length (times (properties feature))) - 1) - 0)%nat
      with (length (times (properties feature)) - 1)%nat in Hat by lia.
    assert (t = last) as -> by congruence. repeat split; assumption. }
  assert (ongoing = [] \/ exists p,
            ongoing = [p] /\ Intervals.route_id p = tripId (properties feature)
            /\ Intervals.point_type p = "ongoing"
            /\ Intervals.timestamp p ∈ times (properties feature)
            /\ current_time < last) as Hongoing'.
  { destruct Hongoing as [[Hin (found & Hfound & ->)] | [_ ->]];
      [|left; reflexivity].
    apply closest_found in Hfound
      as [[-> _] | (p & t & c & -> & Hpair & Hp & _)]; [left; reflexivity|].
    right. exists p. apply make_point_fields in Hp as (Hid & Ht & Hty & _).
    apply zip_elem in Hpair as [Hpair _]. rewrite Ht.
    repeat split; try assumption. lia. }
  assert (previous = [] \/ exists p,
            previous = [p] /\ Intervals.route_id p = tripId (properties feature)
            /\ Intervals.point_type p = "previous_end"
            /\ Intervals.timestamp p = last
            /\ last < current_time - 60) as Hprevious'.
  { destruct Hprevious as [[Hin (c & p & _ & Hp & ->)] | [_ ->]];
      [|left; reflexivity].
    right. exists p. apply make_point_fields in Hp as (Hid & Ht & Hty & _).
    repeat split; try assumption. lia. }
  assert (last ∈ times (properties feature)) as Hlast_in
    by (eapply list_elem_of_lookup_2; exact Hlast).
  clear Hend Hongoing Hprevious.
  destruct Hend' as [-> | (pe & -> & He1 & He2 & He3 & He4)];
    destruct Hongoing' as [-> | (po & -> & Ho1 & Ho2 & Ho3 & Ho4)];
    destruct Hprevious' as [-> | (pp & -> & Hp1 & Hp2 & Hp3 & Hp4)];
    try lia; cbn [app length];
    (split; [lia|]);
    (split; [repeat constructor; try assumption; try congruence; tauto|]);
    intros p Hin Hty;
    repeat (apply elem_of_cons in Hin as [-> | Hin]);
    try (apply elem_of_nil in Hin; contradiction);
    try reflexivity; congruence.
Qed.

Lemma route_gives_at_most_two_points_witness :
  exists pts,
    Intervals.route_points 3600 3600
      (route "B" [100; 3595; 3650]
         (JArr [lonlat 5 5; lonlat 6 6; lonlat 7 7])) = Ok pts
    /\ map Intervals.point_type pts = ["interval_end"; "ongoing"]
    /\ (length pts <= 2)%nat.
Proof.
  eexists. split; [vm_compute; reflexivity|]. split; [reflexivity|].
  apply (route_gives_at_most_two_points 3600 3600
           (route "B" [100; 3595; 3650]
              (JArr [lonlat 5 5; lonlat 6 6; lonlat 7 7]))).
  vm_compute. reflexivity.
Defined.

Lemma last_by_index {A} (l : list A) x :
  l !! (length l - 1)%nat = Some x -> last l = Some x.
Proof. intros H. rewrite last_lookup. rewrite Nat.sub_1_r in H. exact H. Qed.

(** X16.  An ongoing point is the route's position nearest in time to the
    interval instant: for a route with as many coordinates as times, it is
    only given when the instant lies strictly between the route's first and
    last time, it carries one of the route's times together with the
    coordinate of the same index, that time is less than one interval length
    away from the instant, and no time of the route is closer. *)
Theorem ongoing_point_is_nearest current_time interval_delta feature pts p cs :
  Intervals.route_points current_time interval_delta feature = Ok pts ->
  p ∈ pts ->
  Intervals.point_type p = "ongoing" ->
  coordinates (geometry feature) = JArr cs ->
  length cs = length (times (properties feature)) ->
  (exists first final,
     times (properties feature) !! 0%nat = Some first
     /\ last (times (properties feature)) = Some final
     /\ first < current_time < final)
  /\ Z.abs (Intervals.timestamp p - current_time) < interval_delta
  /\ (forall t, t ∈ times (properties feature) ->
        Z.abs (Intervals.timestamp p - current_time) <= Z.abs (t - current_time))
  /\ exists i c,
       times (properties feature) !! i = Some (Intervals.timestamp p)
       /\ cs !! i = Some c
       /\ Intervals.getitem_int c 0 = Ok (Intervals.longitude p)
       /\ Intervals.getitem_int c 1 = Ok (Intervals.latitude p).
Proof.
  intros H Hin Hty Hcs Hlen.
  destruct (route_points_parts _ _ _ _ H)
    as (first & final & coords & at_end & ongoing & previous
        & Hfirst & Hlast & Hcoords & Hend & Hongoing & Hprevious & ->).
  rewrite Hcs in Hcoords. cbn in Hcoords. injection Hcoords as <-.
  assert (p ∈ ongoing) as Hp.
  { apply elem_of_app in Hin as [Hin|Hin].
    - apply interval_end_found in Hend
        as [-> | (q & t & c & -> & Hq & _)];
        [apply elem_of_nil in Hin; contradiction|].
      apply list_elem_of_singleton in Hin as ->.
      apply make_point_fields in Hq as (_ & _ & Hq & _). congruence.
    - apply elem_of_app in Hin as [Hin|Hin]; [exact Hin|].
      destruct Hprevious as [[_ (c & q & _ & Hq & ->)] | [_ ->]];
        [|apply elem_of_nil in Hin; contradiction].
      apply list_elem_of_singleton in Hin as ->.
      apply make_point_fields in Hq as (_ & _ & Hq & _). congruence. }
  destruct Hongoing as [[Hbetween (found & Hfound & ->)] | [_ ->]];
    [|apply elem_of_nil in Hp; contradiction].
  apply closest_found in Hfound
    as [[-> _] | (q & t & c & -> & Hpair & Hq & Hnear & Hmin)];
    [apply elem_of_nil in Hp; contradiction|].
  apply list_elem_of_singleton in Hp as ->.
  apply make_point_fields in Hq as (_ & Ht & _ & Hlon & Hlat). rewrite Ht.
  split; [exists first, final; repeat split; try assumption; try lia;
          apply last_by_index; exact Hlast|].
  split; [exact Hnear|]. split.
  - intros t' Ht'. apply list_elem_of_lookup in Ht' as [i Hi].
    destruct (zip_same_length _ cs i t' Hlen Hi) as [c' Hc'].
    apply (Hmin t' c'). eapply list_elem_of_lookup_2. exact Hc'.
  - apply list_elem_of_lookup in Hpair as [i Hi].
    apply zip_lookup in Hi as [Hi1 Hi2]. exists i, c. repeat split; assumption.
Qed.

Lemma ongoing_point_is_nearest_witness :
  Z.abs (3500 - 3600) < 3600
  /\ Z.abs (3500 - 3600) <= Z.abs (5400 - 3600)
  /\ Intervals.route_points 3600 3600
       (route "A" [0; 1800; 3500; 5400]
          (JArr [lonlat 0 0; lonlat 1 1; lonlat 2 2; lonlat 3 3]))
     = Ok [{| Intervals.route_id := "A";
              Intervals.longitude := JNum (inject_Z 2);
              Intervals.latitude := JNum (inject_Z 2);
              Intervals.timestamp := 3500;
              Intervals.point_type := "ongoing" |}].
Proof.
  assert (Intervals.route_points 3600 3600
            (route "A" [0; 1800; 3500; 5400]
               (JArr [lonlat 0 0; lonlat 1 1; lonlat 2 2; lonlat 3 3]))
          = Ok [{| Intervals.route_id := "A";
                   Intervals.longitude := JNum (inject_Z 2);
                   Intervals.latitude := JNum (inject_Z 2);
                   Intervals.timestamp := 3500;
                   Intervals.point_type := "ongoing" |}]) as Hrun
    by (vm_compute; reflexivity).
  destruct (ongoing_point_is_nearest 3600 3600 _ _ _
              [lonlat 0 0; lonlat 1 1; lonlat 2 2; lonlat 3 3] Hrun
              (proj2 (list_elem_of_singleton _ _) eq_refl))
    as (_ & Hnear & Hmin & _); [reflexivity|reflexivity|reflexivity|].
  split; [exact Hnear|]. split; [|exact Hrun].
  apply (Hmin 5400). apply list_elem_of_In. cbn. tauto.
Defined.

(** X17.  End points sit at the route's terminal position: for a route with
    as many coordinates as times, a point that is not "ongoing" carries the
    route's last time and the route's last coordinate; it is an
    interval_end when that time is within a minute of the interval instant,
    and a previous_end when it lies in the interval before the instant, more
    than a minute back. *)
Theorem end_points_are_terminal current_time interval_delta feature pts p cs :
  Intervals.route_points current_time interval_delta feature = Ok pts ->
  p ∈ pts ->
  Intervals.point_type p <> "ongoing" ->
  coordinates (geometry feature) = JArr cs ->
  length cs = length (times (properties feature)) ->
  exists t c,
    last (times (properties feature)) = Some t
    /\ last cs = Some c
    /\ Intervals.timestamp p = t
    /\ Intervals.getitem_int c 0 = Ok (Intervals.longitude p)
    /\ Intervals.getitem_int c 1 = Ok (Intervals.latitude p)
    /\ ((Intervals.point_type p = "interval_end"
         /\ Z.abs (t - current_time) < 60)
        \/ (Intervals.point_type p = "previous_end"
            /\ current_time - interval_delta < t < current_time - 60)).
Proof.
  intros H Hin Hty Hcs Hlen.
  destruct (route_points_parts _ _ _ _ H)
    as (first & final & coords & at_end & ongoing & previous
        & Hfirst & Hlast & Hcoords & Hend & Hongoing & Hprevious & ->).
  rewrite Hcs in Hcoords, Hprevious. cbn in Hcoords. injection Hcoords as <-.
  apply elem_of_app in Hin as [Hin|Hin]; [|apply elem_of_app in Hin as [Hin|Hin]].
  - apply interval_end_found in Hend
      as [-> | (q & t & c & -> & Hq & Hnear & _ & Hat)];
      [apply elem_of_nil in Hin; contradiction|].
    apply list_elem_of_singleton in Hin as ->.
    apply make_point_fields in Hq as (_ & Ht & Hq & Hlon & Hlat).
    apply zip_lookup in Hat as [Hat1 Hat2].
    replace (Z.to_nat (Z.of_nat (length (times (properties feature))) - 1) - 0)%nat
      with (length (times (properties feature)) - 1)%nat in Hat1, Hat2 by lia.
    exists t, c. split; [apply last_by_index; exact Hat1|].
    split; [apply last_by_index; rewrite Hlen; exact Hat2|].
    repeat split; try assumption. left. split; assumption.
  - destruct Hongoing as [[_ (found & Hfound & ->)] | [_ ->]];
      [|apply elem_of_nil in Hin; contradiction].
    apply closest_found in Hfound
      as [[-> _] | (q & t & c & -> & _ & Hq & _)];
      [apply elem_of_nil in Hin; contradiction|].
    apply list_elem_of_singleton in Hin as ->.
    apply make_point_fields in Hq as (_ & _ & Hq & _). contradiction.
  - destruct Hprevious as [[Hwhen (c & q & Hc & Hq & ->)] | [_ ->]];
      [|apply elem_of_nil in Hin; contradiction].
    apply list_elem_of_singleton in Hin as ->.
    apply make_point_fields in Hq as (_ & Ht & Hq & Hlon & Hlat).
    cbn in Hc. apply index_last in Hc as [Hc _].
    exists final, c. split; [apply last_by_index; exact Hlast|].
    split; [apply last_by_index; exact Hc|].
    repeat split; try assumption. right. split; assumption.
Qed.

Lemma end_points_are_terminal_witness :
  exists p t c,
    Intervals.route_points 3600 3600
      (route "C" [100; 200] (JArr [lonlat 7 7; lonlat 8 8])) = Ok [p]
    /\ last [100; 200] = Some t
    /\ last [lonlat 7 7; lonlat 8 8] = Some c
    /\ Intervals.timestamp p = t
    /\ Intervals.getitem_int c 0 = Ok (Intervals.longitude p)
    /\ Intervals.getitem_int c 1 = Ok (Intervals.latitude p)
    /\ ((Intervals.point_type p = "interval_end" /\ Z.abs (t - 3600) < 60)
        \/ (Intervals.point_type p = "previous_end"
            /\ 3600 - 3600 < t < 3600 - 60)).
Proof.
  assert (Intervals.route_points 3600 3600
            (route "C" [100; 200] (JArr [lonlat 7 7; lonlat 8 8]))
          = Ok [{| Intervals.route_id := "C";
                   Intervals.longitude := JNum (inject_Z 8);
                   Intervals.latitude := JNum (inject_Z 8);
                   Intervals.timestamp := 200;
                   Intervals.point_type := "previous_end" |}]) as Hrun
    by (vm_compute; reflexivity).
  destruct (end_points_are_terminal 3600 3600 _ _ _
              [lonlat 7 7; lonlat 8 8] Hrun
              (proj2 (list_elem_of_singleton _ _) eq_refl))
    as (t & c & H); [discriminate|reflexivity|reflexivity|].
  eexists _, t, c. split; [exact Hrun|exact H].
Defined.

(** ** Interval slicing: the files written *)

Section IntervalFiles.
Import Intervals.

Lemma intervals_step features interval_minutes end_time current_time :
  current_time <= end_time ->
  intervals features interval_minutes end_time current_time =
    match interval_points current_time (60 * Z.pos interval_minutes) features with
    | Raise e => ([], Raise e)
    | Ok pts =>
        let written :=
          match pts with
          | [] => []
          | _ => [{| interval_time := current_time;
                     interval_start := current_time - 60 * Z.pos interval_minutes;
                     points := pts |}]
          end in
        match datetime_add current_time (60 * Z.pos interval_minutes) with
        | Raise e => (written, Raise e)
        | Ok _ =>
            (written
             ++ (intervals features interval_minutes end_time
                   (current_time + 60 * Z.pos interval_minutes)).1,
             (intervals features interval_minutes end_time
                (current_time + 60 * Z.pos interval_minutes)).2)
        end
    end.
Proof.
  intros Hle. rewrite intervals_equation_1. cbv zeta.
  destruct (Z_le_dec current_time end_time); [|lia].
  destruct (interval_points _ _ _); [|reflexivity].
  destruct (datetime_add _ _); [|reflexivity].
  destruct (intervals _ _ _ _). reflexivity.
Qed.

Lemma intervals_done features interval_minutes end_time current_time :
  end_time < current_time ->
  intervals features interval_minutes end_time current_time = ([], Ok tt).
Proof.
  intros Hlt. rewrite intervals_equation_1. cbv zeta.
  destruct (Z_le_dec current_time end_time); [lia|reflexivity].
Qed.

(** Induction along the loop: from [current_time] up, one interval at a
    time. *)
Lemma intervals_ind (features : list Feature) (interval_minutes : positive)
    (end_time : Z) (P : Z -> Prop) :
  (forall t, end_time < t -> P t) ->
  (forall t, t <= end_time -> P (t + 60 * Z.pos interval_minutes) -> P t) ->
  forall t, P t.
Proof.
  intros Hdone Hstep t.
  remember (Z.to_nat (end_time - t + 1)) as n eqn:Hn. revert t Hn.
  induction n as [n IH] using lt_wf_ind. intros t Hn.
  destruct (Z_le_dec t end_time) as [Hle|Hgt]; [|apply Hdone; lia].
  apply Hstep; [exact Hle|].
  apply (IH (Z.to_nat (end_time - (t + 60 * Z.pos interval_minutes) + 1)));
    [lia|reflexivity].
Qed.

Lemma intervals_files features interval_minutes end_time : forall current_time file,
  file ∈ (intervals features interval_minutes end_time current_time).1 ->
  points file <> []
  /\ interval_start file = interval_time file - 60 * Z.pos interval_minutes
  /\ interval_points (interval_time file) (60 * Z.pos interval_minutes) features
     = Ok (points file)
  /\ interval_time file <= end_time
  /\ exists k : nat,
       interval_time file
       = current_time + Z.of_nat k * (60 * Z.pos interval_minutes).
Proof.
  intros current_time.
  apply (intervals_ind features interval_minutes end_time
           (fun t => forall file,
              file ∈ (intervals features interval_minutes end_time t).1 ->
              points file <> []
              /\ interval_start file = interval_time file - 60 * Z.pos interval_minutes
              /\ interval_points (interval_time file)
                   (60 * Z.pos interval_minutes) features = Ok (points file)
              /\ interval_time file <= end_time
              /\ exists k : nat,
                   interval_time file = t + Z.of_nat k * (60 * Z.pos interval_minutes))).
  - intros t Hlt file. rewrite intervals_done by exact Hlt.
    intros Hin. apply elem_of_nil in Hin. contradiction.
  - intros t Hle IH file. rewrite intervals_step by exact Hle.
    destruct (interval_points t _ features) as [pts|] eqn:Hpts;
      [|intros Hin; apply elem_of_nil in Hin; contradiction].
    cbv zeta.
    assert (forall written : list IntervalFile,
              written = match pts with
                        | [] => []
                        | _ => [{| interval_time := t;
                                   interval_start := t - 60 * Z.pos interval_minutes;
                                   points := pts |}]
                        end ->
              file ∈ written ->
              points file <> []
              /\ interval_start file = interval_time file - 60 * Z.pos interval_minutes
              /\ interval_points (interval_time file)
                   (60 * Z.pos interval_minutes) features = Ok (points file)
              /\ interval_time file <= end_time
              /\ exists k : nat,
                   interval_time file = t + Z.of_nat k * (60 * Z.pos interval_minutes))
      as Hwritten.
    { intros written -> Hin.
      destruct pts as [|p pts]; [apply elem_of_nil in Hin; contradiction|].
      apply list_elem_of_singleton in Hin as ->. cbn.
      repeat split; try assumption; try discriminate.
      exists 0%nat. lia. }
    destruct (datetime_add t _) as [next|]; cbn [fst]; intros Hin.
    + apply elem_of_app in Hin as [Hin|Hin]; [exact (Hwritten _ eq_refl Hin)|].
      destruct (IH file Hin) as (H1 & H2 & H3 & H4 & k & Hk).
      repeat split; try assumption. exists (S k). lia.
    + exact (Hwritten _ eq_refl Hin).
Qed.

Lemma intervals_sorted features interval_minutes end_time :
  forall current_time i j f g,
    (i < j)%nat ->
    (intervals features interval_minutes end_time current_time).1 !! i = Some f ->
    (intervals features interval_minutes end_time current_time).1 !! j = Some g ->
    interval_time f < interval_time g.
Proof.
  intros current_time.
  apply (intervals_ind features interval_minutes end_time
           (fun t => forall i j f g, (i < j)%nat ->
              (intervals features interval_minutes end_time t).1 !! i = Some f ->
              (intervals features interval_minutes end_time t).1 !! j = Some g ->
              interval_time f < interval_time g)).
  - intros t Hlt i j f g _. rewrite intervals_done by exact Hlt.
    destruct i; discriminate.
  - intros t Hle IH i j f g Hij. rewrite intervals_step by exact Hle.
    destruct (interval_points t _ features) as [pts|] eqn:Hpts;
      [|destruct i; discriminate].
    cbv zeta. destruct (datetime_add t _) as [next|]; cbn [fst].
    2:{ destruct pts as [|p pts]; [destruct i; discriminate|].
        destruct i as [|i]; destruct j as [|j]; try lia; cbn;
          [intros _ Hg | intros Hf]; [destruct j | destruct i]; discriminate. }
    destruct pts as [|p pts]; [apply IH; exact Hij|].
    cbn [app]. destruct i as [|i]; destruct j as [|j]; try lia; cbn.
    + intros [= <-] Hg. cbn.
      assert (g ∈ (intervals features interval_minutes end_time
                     (t + 60 * Z.pos interval_minutes)).1) as Hin
        by (eapply list_elem_of_lookup_2; exact Hg).
      apply intervals_files in Hin as (_ & _ & _ & _ & k & ->). lia.
    + apply IH. lia.
Qed.

End IntervalFiles.

Section IntervalRange.
Import Intervals.

Lemma foldl_min_spec (l : list Z) : forall acc,
  (foldl Z.min acc l = acc \/ foldl Z.min acc l ∈ l)
  /\ foldl Z.min acc l <= acc
  /\ forall x, x ∈ l -> foldl Z.min acc l <= x.
Proof.
  induction l as [|y l IH]; intros acc; cbn [foldl].
  - split; [left; reflexivity|]. split; [lia|].
    intros x Hin. apply elem_of_nil in Hin. contradiction.
  - destruct (IH (Z.min acc y)) as (Hwhere & Hle & Hall). split; [|split].
    + destruct Hwhere as [-> | Hin]; [|right; right; exact Hin].
      destruct (Z.min_spec acc y) as [[_ ->] | [_ ->]];
        [left; reflexivity | right; left].
    + lia.
    + intros x Hin. apply elem_of_cons in Hin as [-> | Hin]; [lia|].
      apply Hall. exact Hin.
Qed.

Lemma foldl_max_spec (l : list Z) : forall acc,
  (foldl Z.max acc l = acc \/ foldl Z.max acc l ∈ l)
  /\ acc <= foldl Z.max acc l
  /\ forall x, x ∈ l -> x <= foldl Z.max acc l.
Proof.
  induction l as [|y l IH]; intros acc; cbn [foldl].
  - split; [left; reflexivity|]. split; [lia|].
    intros x Hin. apply elem_of_nil in Hin. contradiction.
  - destruct (IH (Z.max acc y)) as (Hwhere & Hle & Hall). split; [|split].
    + destruct Hwhere as [-> | Hin]; [|right; right; exact Hin].
      destruct (Z.max_spec acc y) as [[_ ->] | [_ ->]];
        [right; left | left; reflexivity].
    + lia.
    + intros x Hin. apply elem_of_cons in Hin as [-> | Hin]; [lia|].
      apply Hall. exact Hin.
Qed.

Lemma minimum_spec l m :
  minimum l = Ok m -> m ∈ l /\ forall x, x ∈ l -> m <= x.
Proof.
  destruct l as [|y l]; [discriminate|]. intros [= <-].
  destruct (foldl_min_spec l y) as (Hwhere & Hle & Hall). split.
  - destruct Hwhere as [-> | Hin]; [left | right; exact Hin].
  - intros x Hin. apply elem_of_cons in Hin as [-> | Hin]; [exact Hle|].
    apply Hall. exact Hin.
Qed.

Lemma maximum_spec l m :
  maximum l = Ok m -> m ∈ l /\ forall x, x ∈ l -> x <= m.
Proof.
  destruct l as [|y l]; [discriminate|]. intros [= <-].
  destruct (foldl_max_spec l y) as (Hwhere & Hle & Hall). split.
  - destruct Hwhere as [-> | Hin]; [left | right; exact Hin].
  - intros x Hin. apply elem_of_cons in Hin as [-> | Hin]; [exact Hle|].
    apply Hall. exact Hin.
Qed.

(** The rounded start: at most the first time, less than one interval
    before it, and on the interval grid when the interval divides the
    hour. *)
Lemma rounded_start (start_time : Z) (interval_minutes : positive) :
  let minutes := (start_time mod 3600) / 60 in
  let rounded_minutes := minutes / Z.pos interval_minutes * Z.pos interval_minutes in
  let rounded := start_time - start_time mod 3600 + 60 * rounded_minutes in
  start_time - 60 * Z.pos interval_minutes < rounded <= start_time
  /\ ((Z.pos interval_minutes | 60) -> (60 * Z.pos interval_minutes | rounded)).
Proof.
  cbv zeta.
  set (m3 := start_time mod 3600). set (minutes := m3 / 60).
  set (im := Z.pos interval_minutes).
  assert (0 < im) as Him by (unfold im; lia).
  assert (0 <= m3 < 3600) as Hm3 by (apply Z.mod_pos_bound; lia).
  pose proof (Z.div_mod m3 60 ltac:(lia)) as Hm.
  pose proof (Z.mod_pos_bound m3 60 ltac:(lia)) as Hs.
  fold minutes in Hm.
  pose proof (Z.div_mod minutes im ltac:(lia)) as Hq.
  pose proof (Z.mod_pos_bound minutes im Him) as Hr.
  assert (minutes / im * im = minutes - minutes mod im) as -> by lia.
  split; [lia|].
  intros [k Hk].
  assert (start_time - m3 = 3600 * (start_time / 3600)) as ->
    by (unfold m3; pose proof (Z.div_mod start_time 3600 ltac:(lia)); lia).
  exists (k * (start_time / 3600) + minutes / im).
  replace (minutes - minutes mod im) with (im * (minutes / im)) by lia.
  replace 3600 with (60 * (k * im)) by lia. ring.
Qed.

End IntervalRange.

(** X18.  The files of a slicing lie on one grid: every written file has at
    least one point, namely the points the routes give at its instant; its
    interval starts one interval length before its instant; its instant lies
    after the first time of the collection less one interval length and not
    after the last time; when the interval length divides the hour the
    instant is a multiple of it.  The files come in strictly increasing order
    of their instants, a whole number of interval lengths apart, so no two
    files share an instant. *)
Theorem interval_files_follow_the_grid routes interval_minutes fs files r :
  features routes = Some fs ->
  Intervals.generate_interval_files routes interval_minutes = (files, r) ->
  (forall file, file ∈ files ->
     Intervals.points file <> []
     /\ Intervals.interval_points (Intervals.interval_time file)
          (60 * Z.pos interval_minutes) fs = Ok (Intervals.points file)
     /\ Intervals.interval_start file
        = Intervals.interval_time file - 60 * Z.pos interval_minutes
     /\ (exists first_time last_time,
           Intervals.minimum (all_times fs) = Ok first_time
           /\ Intervals.maximum (all_times fs) = Ok last_time
           /\ first_time - 60 * Z.pos interval_minutes < Intervals.interval_time file
              <= last_time)
     /\ ((Z.pos interval_minutes | 60) ->
         (60 * Z.pos interval_minutes | Intervals.interval_time file)))
  /\ (forall i j f g, (i < j)%nat ->
        files !! i = Some f -> files !! j = Some g ->
        Intervals.interval_time f < Intervals.interval_time g
        /\ (60 * Z.pos interval_minutes
            | Intervals.interval_time g - Intervals.interval_time f)).
Proof.
  intros Hfs. unfold Intervals.generate_interval_files. rewrite Hfs.
  fold (all_times fs).
  destruct (Intervals.minimum (all_times fs)) as [lo|] eqn:Hlo.
  2:{ intros [= <- <-]. split.
      - intros file Hin. apply elem_of_nil in Hin. contradiction.
      - intros i j f g _ Hf. destruct i; discriminate Hf. }
  destruct (Intervals.maximum (all_times fs)) as [hi|] eqn:Hhi.
  2:{ intros [= <- <-]. split.
      - intros file Hin. apply elem_of_nil in Hin. contradiction.
      - intros i j f g _ Hf. destruct i; discriminate Hf. }
  cbv zeta. destruct (rounded_start lo interval_minutes) as [Hround Hgrid].
  cbv zeta in Hround, Hgrid.
  set (start := lo - lo mod 3600
                + 60 * (lo mod 3600 / 60 / Z.pos interval_minutes
                        * Z.pos interval_minutes)) in *.
  destruct (Intervals.timedelta_minutes (Z.pos interval_minutes)) as [delta|].
  2:{ intros [= <- <-]. split.
      - intros file Hin. apply elem_of_nil in Hin. contradiction.
      - intros i j f g _ Hf. destruct i; discriminate Hf. }
  intros Hrun.
  assert (files = (Intervals.intervals fs interval_minutes hi start).1) as ->
    by (rewrite Hrun; reflexivity).
  split.
  - intros file Hin.
    apply intervals_files in Hin as (Hne & Hstart & Hpts & Hle & k & Hk).
    repeat split; try assumption.
    + exists lo, hi. repeat split; try assumption. lia.
    + intros Hdiv. rewrite Hk. apply Z.divide_add_r; [apply Hgrid; exact Hdiv|].
      apply Z.divide_factor_r.
  - intros i j f g Hij Hf Hg. split.
    + eapply intervals_sorted; eassumption.
    + apply list_elem_of_lookup_2 in Hf, Hg.
      apply intervals_files in Hf as (_ & _ & _ & _ & k & ->).
      apply intervals_files in Hg as (_ & _ & _ & _ & k' & ->).
      exists (Z.of_nat k' - Z.of_nat k). ring.
Qed.

Lemma interval_files_follow_the_grid_witness :
  map Intervals.interval_time
    (Intervals.generate_interval_files (collection_of three_routes) 30).1
  = [1800; 3600; 5400]
  /\ (60 * 30 | 3600).
Proof.
  split; [vm_compute; reflexivity|].
  destruct (interval_files_follow_the_grid (collection_of three_routes) 30
              three_routes
              (Intervals.generate_interval_files (collection_of three_routes) 30).1
              (Intervals.generate_interval_files (collection_of three_routes) 30).2
              eq_refl (surjective_pairing _)) as [Hfiles _].
  destruct (Intervals.generate_interval_files (collection_of three_routes) 30).1
    as [|f [|g files]] eqn:Hrun; [vm_compute in Hrun; discriminate Hrun.. |].
  assert (Intervals.interval_time g = 3600) as <-
    by (vm_compute in Hrun; injection Hrun as _ <- _; reflexivity).
  apply (Hfiles g); [right; left|]. exists 2. reflexivity.
Defined.

(** ** Interval slicing: when it fails and when it cannot *)

Section IntervalTotality.
Import Intervals.

Lemma make_point_shaped trip_id point_time type x y rest :
  exists p, make_point trip_id (JArr (x :: y :: rest)) point_time type = Ok p.
Proof.
  unfold make_point, getitem_int, index.
  change (0 <? 0) with false. change (1 <? 0) with false. cbv iota zeta.
  assert ((0 <? Z.of_nat (length (x :: y :: rest))) = true) as ->
    by (apply Z.ltb_lt; cbn [length]; lia).
  assert ((1 <? Z.of_nat (length (x :: y :: rest))) = true) as ->
    by (apply Z.ltb_lt; cbn [length]; lia).
  eexists. reflexivity.
Qed.

Lemma zip_shaped {A B} (P : B -> Prop) (a : list A) (b : list B) :
  Forall P b -> Forall (fun pair => P pair.2) (zip a b).
Proof.
  intros Hb. revert a. induction Hb as [|y b Hy Hb IH]; intros [|x a];
    cbn [zip]; constructor; [exact Hy | apply IH].
Qed.

Lemma interval_end_total trip_id current_time last_idx pairs : forall point_idx,
  Forall (fun pair : Z * json => exists x y rest, pair.2 = JArr (x :: y :: rest))
    pairs ->
  exists a, interval_end trip_id current_time last_idx point_idx pairs = Ok a.
Proof.
  induction pairs as [|[t c] pairs IH]; intros point_idx Hshape;
    cbn [interval_end]; [eexists; reflexivity|].
  apply Forall_cons in Hshape as [(x & y & rest & Hc) Hshape]. cbn in Hc.
  subst c. cbv zeta.
  destruct ((Z.abs (t - current_time) <? 60) && (Z.of_nat point_idx =? last_idx))%bool.
  - destruct (make_point_shaped trip_id t "interval_end" x y rest) as [p ->].
    eexists. reflexivity.
  - apply IH. exact Hshape.
Qed.

Lemma closest_total trip_id current_time pairs : forall min_time_diff before,
  Forall (fun pair : Z * json => exists x y rest, pair.2 = JArr (x :: y :: rest))
    pairs ->
  exists after, closest trip_id current_time pairs min_time_diff before = Ok after.
Proof.
  induction pairs as [|[t c] pairs IH]; intros min_time_diff before Hshape;
    cbn [closest]; [eexists; reflexivity|].
  apply Forall_cons in Hshape as [(x & y & rest & Hc) Hshape]. cbn in Hc.
  subst c. cbv zeta.
  destruct (Z.abs (t - current_time) <? min_time_diff).
  - destruct (make_point_shaped trip_id t "ongoing" x y rest) as [p ->].
    apply IH. exact Hshape.
  - apply IH. exact Hshape.
Qed.

Lemma route_points_total current_time interval_delta feature :
  datetime_min <= current_time - interval_delta <= datetime_max ->
  point_shaped feature ->
  exists pts, route_points current_time interval_delta feature = Ok pts.
Proof.
  intros Hrange (Htimes & cs & Hcs & Hne & Hshape). unfold route_points.
  rewrite Hcs.
  rewrite (datetime_add_in_range current_time (- interval_delta)) by lia.
  replace (current_time + - interval_delta) with (current_time - interval_delta)
    by lia.
  destruct (index_total (times (properties feature)) Htimes)
    as [[first ->] [last ->]].
  cbn [rbind iterate].
  destruct (interval_end_total (tripId (properties feature)) current_time
              (Z.of_nat (length (times (properties feature))) - 1)
              (zip (times (properties feature)) cs) 0
              (zip_shaped _ _ _ Hshape)) as [at_end ->].
  cbn [rbind].
  destruct (closest_total (tripId (properties feature)) current_time
              (zip (times (properties feature)) cs) interval_delta None
              (zip_shaped _ _ _ Hshape)) as [found ->].
  destruct (index_total cs Hne) as [_ [c Hc]].
  assert (exists x y rest, c = JArr (x :: y :: rest)) as (x & y & rest & ->).
  { apply index_last in Hc as [Hc _]. apply list_elem_of_lookup_2 in Hc.
    rewrite Forall_forall in Hshape. apply Hshape. exact Hc. }
  cbn [getitem_int]. rewrite Hc.
  destruct (make_point_shaped (tripId (properties feature)) last "previous_end"
              x y rest) as [p Hp].
  cbn [rbind]. rewrite Hp.
  destruct ((first <? current_time) && (current_time <? last))%bool;
    destruct ((current_time - interval_delta <? last)
              && (last <? current_time - 60))%bool;
    cbn [rbind]; eexists; reflexivity.
Qed.

Lemma interval_points_total current_time interval_delta features :
  datetime_min <= current_time - interval_delta <= datetime_max ->
  Forall point_shaped features ->
  exists pts, interval_points current_time interval_delta features = Ok pts.
Proof.
  intros Hrange.
  induction 1 as [|f features Hf _ [rest IH]]; cbn [interval_points];
    [eexists; reflexivity|].
  destruct (route_points_total current_time interval_delta f Hrange Hf)
    as [pts ->].
  rewrite IH. eexists. reflexivity.
Qed.

Lemma interval_points_raises current_time interval_delta features f e :
  f ∈ features ->
  route_points current_time interval_delta f = Raise e ->
  exists e', interval_points current_time interval_delta features = Raise e'.
Proof.
  intros Hin Hf. induction features as [|g features IH];
    [apply elem_of_nil in Hin; contradiction|].
  cbn [interval_points].
  destruct (route_points current_time interval_delta g) as [pts|e0] eqn:Hg;
    [|eexists; reflexivity].
  apply elem_of_cons in Hin as [-> | Hin]; [congruence|].
  destruct (IH Hin) as [e' ->]. eexists. reflexivity.
Qed.

Lemma intervals_total features interval_minutes start_time end_time :
  (forall t, start_time <= t <= end_time ->
     exists pts,
       interval_points t (60 * Z.pos interval_minutes) features = Ok pts) ->
  datetime_min <= start_time + 60 * Z.pos interval_minutes ->
  end_time + 60 * Z.pos interval_minutes <= datetime_max ->
  forall current_time,
    start_time <= current_time ->
    (intervals features interval_minutes end_time current_time).2 = Ok tt.
Proof.
  intros Htotal Hlow Hhigh.
  apply (intervals_ind features interval_minutes end_time
           (fun t => start_time <= t ->
              (intervals features interval_minutes end_time t).2 = Ok tt)).
  - intros t Hlt _. rewrite intervals_done by exact Hlt. reflexivity.
  - intros t Hle IH Hstart. rewrite intervals_step by exact Hle.
    destruct (Htotal t) as [pts ->]; [lia|]. cbv zeta.
    rewrite datetime_add_in_range by lia. apply IH. lia.
Qed.

Lemma all_times_elem fs f t :
  f ∈ fs -> t ∈ times (properties f) -> t ∈ all_times fs.
Proof.
  intros Hf Ht. unfold all_times. apply list_elem_of_In, in_concat.
  exists (times (properties f)). split; [|apply list_elem_of_In; exact Ht].
  apply in_map_iff. exists f. split; [reflexivity|].
  apply list_elem_of_In. exact Hf.
Qed.

Lemma extremes_exist l :
  l <> [] -> exists lo hi, minimum l = Ok lo /\ maximum l = Ok hi.
Proof. destruct l as [|x l]; [contradiction|]. intros _. eexists _, _. split; reflexivity. Qed.

End IntervalTotality.

(** X19.  Slicing cannot fail on routes of the expected shape whose times
    leave room for the arithmetic on instants: when the collection has at
    least one route, every route has at least one time and as coordinates a
    non-empty list of points with two components or more, and every time of
    the collection lies at least two interval lengths after [datetime.min]
    and one interval length before [datetime.max], the loop over the
    intervals runs to its end without raising, also when a route has more
    times than coordinates or the other way round.  (Nearer to the ends of
    the range of [datetime] the subtraction of line 81 or the addition of
    line 147 raises OverflowError.) *)
Theorem shaped_routes_are_sliced routes interval_minutes fs :
  features routes = Some fs ->
  fs <> [] ->
  Forall point_shaped fs ->
  Forall (fun t =>
            Intervals.datetime_min + 2 * (60 * Z.pos interval_minutes) <= t
            /\ t + 60 * Z.pos interval_minutes <= Intervals.datetime_max)
         (all_times fs) ->
  (Intervals.generate_interval_files routes interval_minutes).2 = Ok tt.
Proof.
  intros Hfs Hne Hshape Hroom. unfold Intervals.generate_interval_files.
  rewrite Hfs. fold (all_times fs).
  assert (all_times fs <> []) as Htimes.
  { destruct fs as [|f fs]; [contradiction|].
    apply Forall_cons in Hshape as [[Hf _] _].
    destruct (times (properties f)) as [|t ts] eqn:Hts; [contradiction|].
    assert (t ∈ all_times (f :: fs)) as Hin
      by (apply (all_times_elem _ f); [left | rewrite Hts; left]).
    intros Hnil. rewrite Hnil in Hin. apply elem_of_nil in Hin. exact Hin. }
  destruct (extremes_exist _ Htimes) as (lo & hi & Hlo & Hhi).
  rewrite Hlo, Hhi. cbv zeta.
  apply minimum_spec in Hlo as [Hlo Hleast].
  apply maximum_spec in Hhi as [Hhi _].
  rewrite Forall_forall in Hroom.
  destruct (Hroom lo Hlo) as [Hlo_low Hlo_high].
  destruct (Hroom hi Hhi) as [Hhi_low Hhi_high].
  destruct (rounded_start lo interval_minutes) as [Hround _].
  cbv zeta in Hround.
  set (start := lo - lo mod 3600
                + 60 * (lo mod 3600 / 60 / Z.pos interval_minutes
                        * Z.pos interval_minutes)) in *.
  unfold Intervals.datetime_min, Intervals.datetime_max in *.
  assert (Intervals.timedelta_minutes (Z.pos interval_minutes)
          = Ok (60 * Z.pos interval_minutes)) as ->.
  { unfold Intervals.timedelta_minutes.
    destruct (Z.ltb_spec (60 * Z.pos interval_minutes) (86400 * 1000000000));
      [reflexivity | lia]. }
  apply (intervals_total fs interval_minutes start hi);
    unfold Intervals.datetime_min, Intervals.datetime_max; try lia.
  intros t Ht. apply interval_points_total; [|exact Hshape].
  unfold Intervals.datetime_min, Intervals.datetime_max. lia.
Qed.

Lemma shaped_routes_are_sliced_witness :
  Forall point_shaped three_routes
  /\ (Intervals.generate_interval_files (collection_of three_routes) 15).2 = Ok tt.
Proof.
  assert (Forall point_shaped three_routes) as Hshape.
  { repeat constructor; try discriminate;
      eexists; (split; [reflexivity|]); (split; [discriminate|]);
      repeat constructor; eexists _, _, _; reflexivity. }
  split; [exact Hshape|].
  apply (shaped_routes_are_sliced (collection_of three_routes) 15 three_routes
           eq_refl); [discriminate | exact Hshape |].
  unfold Intervals.datetime_min, Intervals.datetime_max.
  repeat constructor; cbn; lia.
Defined.

(** X20.  Slicing fails before it writes anything when the input lacks what
    the first interval needs: a collection without a features entry raises
    KeyError; a collection without any route raises ValueError, from the
    minimum of no times; and a collection in which some route has an empty
    list of times raises as well, at the latest when the first interval
    reaches that route.  In each case no file is written. *)
Theorem slicing_needs_times routes interval_minutes :
  features routes = None
  \/ features routes = Some []
  \/ (exists fs f,
        features routes = Some fs /\ f ∈ fs /\ times (properties f) = []) ->
  exists e,
    Intervals.generate_interval_files routes interval_minutes = ([], Raise e)
    /\ (features routes = None -> e = KeyError)
    /\ (features routes = Some [] -> e = ValueError).
Proof.
  unfold Intervals.generate_interval_files.
  intros [-> | [-> | (fs & f & -> & Hin & Hempty)]].
  - exists KeyError. repeat split. discriminate.
  - exists ValueError. repeat split. discriminate.
  - fold (all_times fs).
    assert (forall e', exists e,
              ([] : list Intervals.IntervalFile, Raise e' : result unit)
              = ([], Raise e)
              /\ (Some fs = None -> e = KeyError)
              /\ (Some fs = Some [] -> e = ValueError)) as Hraise.
    { intros e'. destruct fs as [|g fs];
        [apply elem_of_nil in Hin; contradiction|].
      exists e'. repeat split; discriminate. }
    destruct (Intervals.minimum (all_times fs)) as [lo|e1] eqn:Hlo.
    2:{ destruct fs as [|g fs]; [apply elem_of_nil in Hin; contradiction|].
        exists e1. repeat split; discriminate. }
    destruct (Intervals.maximum (all_times fs)) as [hi|e2] eqn:Hhi;
      [|apply Hraise].
    cbv zeta. destruct (rounded_start lo interval_minutes) as [Hround _].
    cbv zeta in Hround.
    destruct (Intervals.timedelta_minutes (Z.pos interval_minutes)) as [delta|];
      [|apply Hraise].
    apply minimum_spec in Hlo as [Hlo _]. apply maximum_spec in Hhi as [_ Hhi].
    rewrite intervals_step by (specialize (Hhi lo Hlo); lia).
    match goal with
    | |- context [Intervals.interval_points ?t ?d fs] =>
        destruct (interval_points_raises t d fs f IndexError Hin) as [e' ->]
    end; [|apply Hraise].
    unfold Intervals.route_points. rewrite Hempty. reflexivity.
Qed.

Lemma slicing_needs_times_witness :
  exists e,
    Intervals.generate_interval_files
      (collection_of [route "A" [0; 1800] (JArr [lonlat 0 0; lonlat 1 1]);
                      route "B" [] (JArr [])]) 60
    = ([], Raise e).
Proof.
  destruct (slicing_needs_times
              (collection_of [route "A" [0; 1800] (JArr [lonlat 0 0; lonlat 1 1]);
                              route "B" [] (JArr [])]) 60) as (e & Hrun & _).
  - right. right. eexists _, (route "B" [] (JArr [])).
    split; [reflexivity|]. split; [right; left | reflexivity].
  - exists e. exact Hrun.
Defined.

(** ** Interval slicing: which ends are reported *)

Section IntervalEnds.
Import Intervals.

Lemma interval_end_reached trip_id current_time (n : nat) t x y rest :
  forall pairs point_idx,
    (point_idx <= n)%nat ->
    pairs !! (n - point_idx)%nat = Some (t, JArr (x :: y :: rest)) ->
    Z.abs (t - current_time) < 60 ->
    exists p,
      interval_end trip_id current_time (Z.of_nat n) point_idx pairs = Ok [p]
      /\ make_point trip_id (JArr (x :: y :: rest)) t "interval_end" = Ok p.
Proof.
  induction pairs as [|[t' c'] pairs IH]; intros point_idx Hle Hat Hnear;
    [discriminate Hat|].
  cbn [interval_end]. cbv zeta.
  destruct (Nat.eq_dec point_idx n) as [-> | Hne].
  - rewrite Nat.sub_diag in Hat. injection Hat as -> ->.
    assert ((Z.abs (t - current_time) <? 60) = true) as ->
      by (apply Z.ltb_lt; exact Hnear).
    rewrite Z.eqb_refl. cbn [andb].
    destruct (make_point_shaped trip_id t "interval_end" x y rest) as [p Hp].
    exists p. rewrite Hp. split; reflexivity.
  - assert ((Z.of_nat point_idx =? Z.of_nat n) = false) as ->
      by (apply Z.eqb_neq; lia).
    rewrite andb_false_r. apply IH; [lia| |exact Hnear].
    replace (n - point_idx)%nat with (S (n - S point_idx)) in Hat by lia.
    exact Hat.
Qed.

Lemma zip_reaches {A B} (a : list A) (b : list B) i x :
  (length a <= length b)%nat -> a !! i = Some x ->
  exists y, zip a b !! i = Some (x, y) /\ b !! i = Some y.
Proof.
  revert b i. induction a as [|x' a IH]; intros [|y' b] i Hlen Hi;
    try (destruct i; discriminate Hi); [cbn in Hlen; lia|].
  destruct i as [|i]; cbn in Hi |- *.
  - injection Hi as ->. eauto.
  - apply IH; [cbn in Hlen; lia | exact Hi].
Qed.

End IntervalEnds.

(** X21.  A route whose last time is exactly one minute before an instant of
    the grid gets no end point at all when the interval is longer than one
    minute: at that instant it is neither within a minute (the test is
    strict) nor more than a minute back (strict as well), and no other
    instant of the grid is near enough.  Whatever the route contributes at
    any instant of the grid is an ongoing point. *)
Theorem end_a_minute_before_is_dropped instant k interval_minutes feature pts p :
  (1 < interval_minutes)%positive ->
  last (times (properties feature)) = Some (instant - 60) ->
  Intervals.route_points (instant + k * (60 * Z.pos interval_minutes))
    (60 * Z.pos interval_minutes) feature = Ok pts ->
  p ∈ pts ->
  Intervals.point_type p = "ongoing".
Proof.
  intros Him Hlast H Hin.
  destruct (route_points_parts _ _ _ _ H)
    as (first & final & coords & at_end & ongoing & previous
        & Hfirst & Hfinal & Hcoords & Hend & Hongoing & Hprevious & ->).
  apply last_by_index in Hfinal. rewrite Hlast in Hfinal.
  injection Hfinal as <-.
  set (d := 60 * Z.pos interval_minutes) in *.
  assert (120 <= d) as Hd by (unfold d; lia).
  assert ((k <= -1 -> k * d <= - d) /\ (1 <= k -> d <= k * d)
          /\ (k = 0 -> k * d = 0)) as (Hneg & Hpos & Hzero) by nia.
  apply elem_of_app in Hin as [Hin|Hin]; [|apply elem_of_app in Hin as [Hin|Hin]].
  - apply interval_end_found in Hend
      as [-> | (q & t & c & -> & Hq & Hnear & _ & Hat)];
      [apply elem_of_nil in Hin; contradiction|].
    apply zip_lookup in Hat as [Hat _].
    replace (Z.to_nat (Z.of_nat (length (times (properties feature))) - 1) - 0)%nat
      with (length (times (properties feature)) - 1)%nat in Hat by lia.
    apply last_by_index in Hat. rewrite Hlast in Hat. injection Hat as <-.
    lia.
  - destruct Hongoing as [[_ (found & Hfound & ->)] | [_ ->]];
      [|apply elem_of_nil in Hin; contradiction].
    apply closest_found in Hfound
      as [[-> _] | (q & t & c & -> & _ & Hq & _)];
      [apply elem_of_nil in Hin; contradiction|].
    apply list_elem_of_singleton in Hin as ->.
    apply make_point_fields in Hq as (_ & _ & Hty & _). exact Hty.
  - destruct Hprevious as [[Hrange _] | [_ ->]];
      [lia | apply elem_of_nil in Hin; contradiction].
Qed.

Lemma end_a_minute_before_is_dropped_witness :
  exists p,
    Intervals.route_points (3600 + -1 * (60 * 30)) (60 * 30)
      (route "A" [0; 3540] (JArr [lonlat 0 0; lonlat 1 1])) = Ok [p]
    /\ Intervals.point_type p = "ongoing".
Proof.
  eexists. split; [vm_compute; reflexivity|].
  apply (end_a_minute_before_is_dropped 3600 (-1) 30
           (route "A" [0; 3540] (JArr [lonlat 0 0; lonlat 1 1])) _ _
           eq_refl eq_refl eq_refl).
  left.
Defined.

(** X22.  End points are reported whenever the data allows it.  For a route
    whose coordinates are points with two components or more: if it has at
    least as many coordinates as times, a last time within a minute of the
    instant gives an interval_end point, and a last time in the interval
    before the instant, more than a minute back, gives a previous_end point,
    each carrying that last time.  A route with fewer coordinates than times
    never gets an interval_end point, since the paired scan stops before the
    last index. *)
Theorem route_end_is_reported current_time interval_delta feature cs final pts :
  coordinates (geometry feature) = JArr cs ->
  Forall (fun c => exists x y rest, c = JArr (x :: y :: rest)) cs ->
  last (times (properties feature)) = Some final ->
  Intervals.route_points current_time interval_delta feature = Ok pts ->
  ((length (times (properties feature)) <= length cs)%nat ->
   Z.abs (final - current_time) < 60 ->
   exists p, p ∈ pts /\ Intervals.point_type p = "interval_end"
             /\ Intervals.timestamp p = final)
  /\ (current_time - interval_delta < final < current_time - 60 ->
      exists p, p ∈ pts /\ Intervals.point_type p = "previous_end"
                /\ Intervals.timestamp p = final)
  /\ ((length cs < length (times (properties feature)))%nat ->
      forall p, p ∈ pts -> Intervals.point_type p <> "interval_end").
Proof.
  intros Hcs Hshape Hlast H.
  destruct (route_points_parts _ _ _ _ H)
    as (first & final' & coords & at_end & ongoing & previous
        & Hfirst & Hfinal & Hcoords & Hend & Hongoing & Hprevious & ->).
  rewrite Hcs in Hcoords, Hprevious. cbn in Hcoords. injection Hcoords as <-.
  pose proof Hfinal as Hat. apply last_by_index in Hfinal.
  rewrite Hlast in Hfinal. injection Hfinal as <-.
  split; [|split].
  - intros Hlen Hnear.
    destruct (zip_reaches _ cs _ _ Hlen Hat) as (c & Hpair & Hc).
    assert (exists x y rest, c = JArr (x :: y :: rest)) as (x & y & rest & ->).
    { apply list_elem_of_lookup_2 in Hc. rewrite Forall_forall in Hshape.
      apply Hshape. exact Hc. }
    assert (times (properties feature) <> []) as Hne
      by (intros Hnil; rewrite Hnil in Hlast; discriminate Hlast).
    assert (0 < length (times (properties feature)))%nat as Hpos
      by (destruct (times (properties feature)); [contradiction | cbn; lia]).
    destruct (interval_end_reached (tripId (properties feature)) current_time
                (length (times (properties feature)) - 1) final x y rest
                (Intervals.zip (times (properties feature)) cs) 0)
      as (p & Hrun & Hp);
      [lia | rewrite Nat.sub_0_r; exact Hpair | exact Hnear |].
    replace (Z.of_nat (length (times (properties feature)) - 1))
      with (Z.of_nat (length (times (properties feature))) - 1) in Hrun by lia.
    rewrite Hrun in Hend. injection Hend as <-.
    apply make_point_fields in Hp as (_ & Ht & Hty & _).
    exists p. split; [left | split; assumption].
  - intros Hrange.
    destruct Hprevious as [[_ (c & p & _ & Hp & ->)] | [Hout _]]; [|lia].
    apply make_point_fields in Hp as (_ & Ht & Hty & _).
    exists p. split; [|split; assumption].
    apply elem_of_app. right. apply elem_of_app. right. left.
  - intros Hshort p Hin Hty.
    apply elem_of_app in Hin as [Hin|Hin]; [|apply elem_of_app in Hin as [Hin|Hin]].
    + apply interval_end_found in Hend
        as [-> | (q & t & c & -> & _ & _ & _ & Hpair)];
        [apply elem_of_nil in Hin; contradiction|].
      apply zip_lookup in Hpair as [_ Hc]. apply lookup_lt_Some in Hc. lia.
    + destruct Hongoing as [[_ (found & Hfound & ->)] | [_ ->]];
        [|apply elem_of_nil in Hin; contradiction].
      apply closest_found in Hfound
        as [[-> _] | (q & t & c & -> & _ & Hq & _)];
        [apply elem_of_nil in Hin; contradiction|].
      apply list_elem_of_singleton in Hin as ->.
      apply make_point_fields in Hq as (_ & _ & Hq & _). congruence.
    + destruct Hprevious as [[_ (c & q & _ & Hq & ->)] | [_ ->]];
        [|apply elem_of_nil in Hin; contradiction].
      apply list_elem_of_singleton in Hin as ->.
      apply make_point_fields in Hq as (_ & _ & Hq & _). congruence.
Qed.

Lemma route_end_is_reported_witness :
  exists p,
    Intervals.route_points 3600 3600
      (route "B" [100; 3590] (JArr [lonlat 5 5; lonlat 6 6])) = Ok [p]
    /\ Intervals.point_type p = "interval_end"
    /\ Intervals.timestamp p = 3590.
Proof.
  assert (exists p, Intervals.route_points 3600 3600
            (route "B" [100; 3590] (JArr [lonlat 5 5; lonlat 6 6])) = Ok [p])
    as [p0 Hrun] by (eexists; vm_compute; reflexivity).
  destruct (route_end_is_reported 3600 3600
              (route "B" [100; 3590] (JArr [lonlat 5 5; lonlat 6 6]))
              [lonlat 5 5; lonlat 6 6] 3590 [p0] eq_refl) as [Hend _].
  - repeat constructor; eexists _, _, _; reflexivity.
  - reflexivity.
  - exact Hrun.
  - destruct Hend as (p & Hin & Hty & Ht); [cbn; lia | cbn; lia |].
    apply list_elem_of_singleton in Hin as ->.
    exists p0. split; [exact Hrun|]. split; assumption.
Defined.
